(** * plexmissing: the matching core of [missing.py]

    A shallow embedding of the title normaliser, the two library indexes
    and the reconciliation loop ([normalize_title], [index_by_ids],
    [build_title_year_index], [match_present]) together with the part of
    [main] that splits a reference list by kind. *)

From Stdlib Require Import QArith Lqa Ascii String.
From stdpp Require Import gmap strings list fin_maps pretty.

Local Open Scope Z_scope.
Local Open Scope N_scope.
Local Open Scope nat_scope.
Local Open Scope string_scope.
Local Open Scope list_scope.

(** ** Python values *)

(** A Python [str] is a sequence of Unicode code points. *)
Abbreviation pystr := (list N).

(** Field names and other ASCII literals of the source are written as
    Rocq strings and read as code points. *)
Definition u (s : string) : pystr :=
  (fun a => N_of_ascii a) <$> list_ascii_of_string s.

(** The values found in the record dictionaries: [None], a [str] or an
    [int] (Trakt delivers numeric ids, Plex an integer [ratingKey]). *)
Inductive pyval :=
  | VNone
  | VStr (s : pystr)
  | VInt (z : Z).

#[global] Instance pyval_eq_dec : EqDecision pyval.
Proof. solve_decision. Defined.

#[global] Instance pyval_countable : Countable pyval.
Proof.
  refine (inj_countable'
    (fun v => match v with
              | VNone => inl ()
              | VStr s => inr (inl s)
              | VInt z => inr (inr z)
              end)
    (fun x => match x with
              | inl _ => VNone
              | inr (inl s) => VStr s
              | inr (inr z) => VInt z
              end) _).
  by intros [].
Defined.

(** A record is a [dict] from field names to values. *)
Abbreviation pydict := (gmap string pyval).

(** [d.get(k)]: [None] when the key is absent. *)
Definition get (d : pydict) (k : string) : pyval := default VNone (d !! k).

(** Truth value of an object in a condition. *)
Definition truthy (v : pyval) : bool :=
  match v with
  | VNone => false
  | VStr s => negb (bool_decide (s = []))
  | VInt z => negb (bool_decide (z = 0%Z))
  end.

(** [v or s] with [s] the empty string. *)
Definition or_empty (v : pyval) : pyval := if truthy v then v else VStr [].

(** [str(v)] as used by an f-string placeholder. *)
Definition format (v : pyval) : pystr :=
  match v with
  | VNone => u "None"
  | VStr s => s
  | VInt z => u (pretty z)
  end.

(** ** Normaliser *)

Module Normalizer.

(** [str.lower] on the Basic Latin and Latin-1 Supplement blocks; the case
    mapping of code points from U+0100 upwards is not modelled and they
    are returned as they are. *)
Definition lower_char (c : N) : N :=
  if ((65 <=? c) && (c <=? 90) || (192 <=? c) && (c <=? 214)
      || (216 <=? c) && (c <=? 222))%N
  then (c + 32)%N else c.

Definition lower (t : pystr) : pystr := lower_char <$> t.

(** Unicode whitespace, as tested both by [str.strip] and by [\s] in a
    [str] pattern. *)
Definition is_space (c : N) : bool :=
  ((9 <=? c) && (c <=? 13) || (28 <=? c) && (c <=? 32)
   || (c =? 133) || (c =? 160) || (c =? 5760)
   || (8192 <=? c) && (c <=? 8202)
   || (c =? 8232) || (c =? 8233) || (c =? 8239) || (c =? 8287)
   || (c =? 12288))%N.

(** The apostrophe class of the second line of [normalize_title]: right
    single quotation mark U+2019, straight apostrophe and backtick. *)
Definition is_apostrophe (c : N) : bool :=
  ((c =? 8217) || (c =? 39) || (c =? 96))%N.

(** The punctuation class of the third line: [: ! ? . , & / ( ) -]. *)
Definition is_punct (c : N) : bool :=
  ((c =? 58) || (c =? 33) || (c =? 63) || (c =? 46) || (c =? 44)
   || (c =? 38) || (c =? 47) || (c =? 40) || (c =? 41) || (c =? 45))%N.

Fixpoint lstrip (t : pystr) : pystr :=
  match t with
  | c :: t' => if is_space c then lstrip t' else t
  | [] => []
  end.

(** [str.strip()] *)
Definition strip (t : pystr) : pystr :=
  reverse (lstrip (reverse (lstrip t))).

(** [re.sub] with the apostrophe class: every character of the class
    becomes a straight apostrophe. *)
Definition sub_apostrophe (t : pystr) : pystr :=
  (fun c => if is_apostrophe c then 39%N else c) <$> t.

(** [re.sub] with a pattern [cls+] and a single space as replacement:
    every maximal run of characters of the class becomes one space.
    [in_run] tells that the preceding character belonged to the run being
    replaced. *)
Fixpoint sub_runs (cls : N -> bool) (in_run : bool) (t : pystr) : pystr :=
  match t with
  | [] => []
  | c :: t' =>
      if cls c
      then (if in_run then sub_runs cls true t'
            else 32%N :: sub_runs cls true t')
      else c :: sub_runs cls false t'
  end.

Definition normalize_title (t : pystr) : pystr :=
  let t := strip (lower t) in
  let t := sub_apostrophe t in
  let t := sub_runs is_punct false t in
  let t := sub_runs is_space false t in
  t.

End Normalizer.

Import Normalizer.

(** ** Identity indexes and reconciliation *)

Section Matching.

(** The similarity scorer [rapidfuzz.fuzz.WRatio]: the score of a query
    against a choice, a float between 0 and 100 taken as a rational. *)
Variable WRatio : pystr -> pystr -> Q.

Definition id_keys : list string := ["imdb_id"; "tmdb_id"; "tvdb_id"].

(** The f-string [key:val]. *)
Definition id_key (key : string) (val : pyval) : pystr :=
  u key ++ u ":" ++ format val.

(** The inner loop of [index_by_ids] for one item. *)
Definition index_item (idx : gmap pystr pydict) (it : pydict)
  : gmap pystr pydict :=
  foldl (fun idx key =>
           let val := get it key in
           if truthy val then <[id_key key val := it]> idx else idx)
        idx id_keys.

Definition index_by_ids (items : list pydict) : gmap pystr pydict :=
  foldl index_item ∅ items.

(** [normalize_title(it[title])]: fails when the key is missing
    ([KeyError]) or the value is not a [str] ([AttributeError]). *)
Definition norm_title (it : pydict) : option pystr :=
  match it !! "title" with
  | Some (VStr t) => Some (normalize_title t)
  | _ => None
  end.

(** The key of an item in the title and year index. *)
Definition ty_key (it : pydict) : option (pystr * pyval) :=
  t ← norm_title it;
  Some (t, or_empty (get it "year")).

Definition ty_step (d : option (gmap (pystr * pyval) pydict)) (it : pydict)
  : option (gmap (pystr * pyval) pydict) :=
  d ← d;
  k ← ty_key it;
  Some (<[k := it]> d).

Definition build_title_year_index (items : list pydict)
  : option (gmap (pystr * pyval) pydict) :=
  foldl ty_step (Some ∅) items.

Definition Qlt_bool (a b : Q) : bool := negb (Qle_bool b a).

(** [rapidfuzz.process.extractOne(query, choices, scorer=WRatio)] with no
    processor and no cutoff: the loop over [enumerate(choices)] keeps a
    choice whose score reaches the running cutoff and beats the best so
    far, and stops at the optimal score 100.  The result is the choice, its
    score and its position. *)
Fixpoint extractOne_from (query : pystr) (key : nat) (choices : list pystr)
    (score_cutoff : Q) (result : option (pystr * Q * nat))
  : option (pystr * Q * nat) :=
  match choices with
  | [] => result
  | choice :: rest =>
      let score := WRatio query choice in
      let better :=
        match result with
        | None => true
        | Some (_, best, _) => Qlt_bool best score
        end in
      let take := Qle_bool score_cutoff score && better in
      let result' := if take then Some (choice, score, key) else result in
      let cutoff' := if take then score else score_cutoff in
      if Qeq_bool score 100 then result'
      else extractOne_from query (S key) rest cutoff' result'
  end.

Definition extractOne (query : pystr) (choices : list pystr)
  : option (pystr * Q * nat) :=
  extractOne_from query 0 choices 0%Q None.

(** Truth value of [found]: [None] and the empty dict are false. *)
Definition found_true (found : option pydict) : bool :=
  match found with
  | Some d => negb (bool_decide (d = ∅))
  | None => false
  end.

(** The loop over the three id keys in [match_present], leaving at the
    first key whose formatted id is in the index. *)
Fixpoint id_stage (keys : list string) (s : pydict)
    (id_index : gmap pystr pydict) : option pydict :=
  match keys with
  | [] => None
  | key :: keys' =>
      let sid := get s key in
      if truthy sid then
        match id_index !! id_key key sid with
        | Some r => Some r
        | None => id_stage keys' s id_index
        end
      else id_stage keys' s id_index
  end.

(** The lookup of the exact title and year stage. *)
Definition exact_stage (s : pydict) (ty_index : gmap (pystr * pyval) pydict)
  : option (option pydict) :=
  t ← norm_title s;
  Some (ty_index !! (t, or_empty (get s "year"))).

(** The year test of the fuzzy stage. *)
Definition year_ok (s p : pydict) : bool :=
  truthy (get s "year") && bool_decide (get p "year" = get s "year")
  || negb (truthy (get s "year")).

(** The first library item with the winning normalised title and an
    acceptable year. *)
Fixpoint pick (s : pydict) (cand : pystr) (plex_items : list pydict)
  : option (option pydict) :=
  match plex_items with
  | [] => Some None
  | p :: rest =>
      t ← norm_title p;
      if bool_decide (t = cand) && year_ok s p then Some (Some p)
      else pick s cand rest
  end.

(** The candidate the fuzzy stage accepts: the best choice when its score
    reaches the threshold. *)
Definition fuzzy_candidate (st : pystr) (plex_titles : list pystr)
    (fuzzy_threshold : Z) : option pystr :=
  match extractOne st plex_titles with
  | Some (c, score, _) =>
      if Qle_bool (inject_Z fuzzy_threshold) score then Some c else None
  | None => None
  end.

Definition fuzzy_stage (s : pydict) (plex_items : list pydict)
    (plex_titles : list pystr) (fuzzy_threshold : Z)
  : option (option pydict) :=
  st ← norm_title s;
  match fuzzy_candidate st plex_titles fuzzy_threshold with
  | Some c => pick s c plex_items
  | None => Some None
  end.

(** The value of [found] at the end of one iteration of the loop over the
    source; [None] stands for a raised exception. *)
Definition match_one (plex_items : list pydict)
    (id_index : gmap pystr pydict)
    (ty_index : gmap (pystr * pyval) pydict) (plex_titles : list pystr)
    (fuzzy_threshold : Z) (prefer_ids : bool) (s : pydict)
  : option (option pydict) :=
  let found := if prefer_ids then id_stage id_keys s id_index else None in
  found ← (if found_true found then Some found else exact_stage s ty_index);
  if found_true found then Some found
  else
    hit ← fuzzy_stage s plex_items plex_titles fuzzy_threshold;
    Some (match hit with Some p => Some p | None => found end).

(** The entry appended to [present]: the source record with the rating key
    of the matched item. *)
Definition mark (s found : pydict) : pydict :=
  <["_matched_ratingKey" := get found "ratingKey"]> s.

Definition classify (acc : option (list pydict * list pydict))
    (s : pydict) (found : option pydict)
  : option (list pydict * list pydict) :=
  '(present, missing) ← acc;
  match found with
  | Some r =>
      if found_true found then Some (present ++ [mark s r], missing)
      else Some (present, missing ++ [s])
  | None => Some (present, missing ++ [s])
  end.

Definition match_present (source plex_items : list pydict)
    (fuzzy_threshold : Z) (prefer_ids : bool)
  : option (list pydict * list pydict) :=
  let id_index := if prefer_ids then index_by_ids plex_items else ∅ in
  ty_index ← build_title_year_index plex_items;
  plex_titles ← mapM norm_title plex_items;
  foldl (fun acc s =>
           _ ← acc;
           found ← match_one plex_items id_index ty_index plex_titles
                     fuzzy_threshold prefer_ids s;
           classify acc s found)
        (Some ([], [])) source.

(** The body of the loop over the source bundles in [main]: the items are
    split by kind and each part is matched against its own library
    partition. *)
Definition reconcile_bundle (items movies shows : list pydict)
    (fuzzy_threshold : Z) (prefer_ids : bool)
  : option ((list pydict * list pydict) * (list pydict * list pydict)) :=
  let src_movies := filter (fun x => get x "kind" = VStr (u "movie")) items in
  let src_shows := filter (fun x => get x "kind" = VStr (u "show")) items in
  movies_res ← match_present src_movies movies fuzzy_threshold prefer_ids;
  shows_res ← match_present src_shows shows fuzzy_threshold prefer_ids;
  Some (movies_res, shows_res).

End Matching.

(** ** Notions used in the statements *)

(** The item has a [str] title, so that [normalize_title] applies. *)
Definition has_title (it : pydict) : Prop := is_Some (norm_title it).

#[global] Instance has_title_dec it : Decision (has_title it).
Proof. unfold has_title. apply _. Defined.

(** The index keys one item writes in [index_by_ids]. *)
Definition item_keys (it : pydict) : list pystr :=
  omap (fun key =>
          if truthy (get it key) then Some (id_key key (get it key))
          else None) id_keys.

(** What one key contributes to the identifier stage: the index entry of
    the formatted id when the record carries a true value under the key. *)
Definition id_hit (s : pydict) (id_index : gmap pystr pydict)
    (key : string) : option pydict :=
  if truthy (get s key) then id_index !! id_key key (get s key) else None.

(** The field is absent, [None] or the empty string. *)
Definition blank (it : pydict) (key : string) : Prop :=
  it !! key = None \/ it !! key = Some VNone \/ it !! key = Some (VStr []).

(** The value of [found] for one source record in a call of
    [match_present]: the indexes and the title list are those the call
    builds from [plex_items]. *)
Definition find_match (WRatio : pystr -> pystr -> Q)
    (plex_items : list pydict) (fuzzy_threshold : Z) (prefer_ids : bool)
    (s : pydict) : option (option pydict) :=
  let id_index := if prefer_ids then index_by_ids plex_items else ∅ in
  ty_index ← build_title_year_index plex_items;
  plex_titles ← mapM norm_title plex_items;
  match_one WRatio plex_items id_index ty_index plex_titles
    fuzzy_threshold prefer_ids s.

(** [l] is an order-preserving merge of [l1] and [l2]: every position of
    [l] goes to exactly one of the two. *)
Inductive interleave {A} : list A -> list A -> list A -> Prop :=
  | interleave_nil : interleave [] [] []
  | interleave_l x l1 l2 l :
      interleave l1 l2 l -> interleave (x :: l1) l2 (x :: l)
  | interleave_r x l1 l2 l :
      interleave l1 l2 l -> interleave l1 (x :: l2) (x :: l).

(** ** Title variants

    The spec-side notions the normaliser is compared with. *)

(** A separator: a character of the stripped punctuation class or a
    whitespace character. *)
Definition is_sep (c : N) : bool := is_punct c || is_space c.

(** What is left of a character once case and apostrophe glyph are
    forgotten. *)
Definition fold_char (c : N) : N :=
  let c := lower_char c in if is_apostrophe c then 39%N else c.

(** Following the spec's words and its example, the two spellings of the
    Spider-Man title: [y] differs from [x] only in case, in the stripped
    punctuation set, or in apostrophe glyph when it is [x] up to case and
    apostrophe glyph, with characters of the stripped punctuation class
    replaced by a space or left out. *)
Inductive differ_only_case_punct_apostrophe : pystr -> pystr -> Prop :=
  | dcp_nil : differ_only_case_punct_apostrophe [] []
  | dcp_char a b x y :
      fold_char a = fold_char b ->
      differ_only_case_punct_apostrophe x y ->
      differ_only_case_punct_apostrophe (a :: x) (b :: y)
  | dcp_space a x y :
      is_punct a = true ->
      differ_only_case_punct_apostrophe x y ->
      differ_only_case_punct_apostrophe (a :: x) (32%N :: y)
  | dcp_drop a x y :
      is_punct a = true ->
      differ_only_case_punct_apostrophe x y ->
      differ_only_case_punct_apostrophe (a :: x) y.

(** The code points on which [lower] is [str.lower]: Basic Latin, Latin-1
    and the three apostrophe glyphs.  A text made of them has no character
    whose lowering depends on its neighbours. *)
Definition in_lower_range (c : N) : bool := (c <? 256)%N || is_apostrophe c.

(** A finer relation: the titles agree character by character up to case
    and apostrophe glyph, a separator may stand for any other separator,
    and a separator next to a separator may be dropped on either side. *)
Inductive title_equiv : pystr -> pystr -> Prop :=
  | te_nil : title_equiv [] []
  | te_char a b x y :
      is_sep a = false -> is_sep b = false -> fold_char a = fold_char b ->
      title_equiv x y -> title_equiv (a :: x) (b :: y)
  | te_sep a b x y :
      is_sep a = true -> is_sep b = true ->
      title_equiv x y -> title_equiv (a :: x) (b :: y)
  | te_drop_l a b x y :
      is_sep a = true -> is_sep b = true ->
      title_equiv (b :: x) y -> title_equiv (a :: b :: x) y
  | te_drop_r a b x y :
      is_sep a = true -> is_sep b = true ->
      title_equiv x (b :: y) -> title_equiv x (a :: b :: y).

(** No whitespace at either end, so that [strip] has nothing to remove. *)
Definition no_edge_space (t : pystr) : Prop :=
  lstrip t = t /\ lstrip (reverse t) = reverse t.

(** ** Sample data *)

(** Two scorers to run the functions on: [exact_ratio] gives 100 to equal
    non-empty strings and 0 otherwise, [length_ratio] compares lengths.
    Both give 0 when a string is empty, as [WRatio] does. *)
Definition exact_ratio (a b : pystr) : Q :=
  if bool_decide (a = b) && negb (bool_decide (a = [])) then 100%Q else 0%Q.

Definition length_ratio (a b : pystr) : Q :=
  if bool_decide (a = []) || bool_decide (b = []) then 0%Q
  else (inject_Z (100 * Z.of_nat (length a `min` length b))
        / inject_Z (Z.of_nat (length a `max` length b)))%Q.

Definition library_item (title year : string) (imdb tmdb tvdb : pyval)
    (rating_key : Z) (kind : string) : pydict :=
  list_to_map
    [("title", VStr (u title)); ("year", VStr (u year));
     ("imdb_id", imdb); ("tmdb_id", tmdb); ("tvdb_id", tvdb);
     ("ratingKey", VInt rating_key); ("kind", VStr (u kind))].

Definition reference (title : string) (year imdb tmdb tvdb : pyval)
    (kind : string) : pydict :=
  list_to_map
    [("title", VStr (u title)); ("year", year);
     ("imdb_id", imdb); ("tmdb_id", tmdb); ("tvdb_id", tvdb);
     ("kind", VStr (u kind))].

Definition matrix_lib : pydict :=
  library_item "The Matrix" "1999" (VStr (u "tt0133093")) VNone VNone
    7 "movie".

Definition matrix_show_lib : pydict :=
  library_item "The Matrix" "1999" (VStr (u "tt0133093")) VNone VNone
    8 "show".

Definition matrix_ref : pydict :=
  reference "Matrix, The" (VStr (u "1999")) (VStr (u "tt0133093"))
    VNone VNone "movie".

Definition matrix_show_ref : pydict :=
  reference "Matrix, The" (VStr (u "1999")) (VStr (u "tt0133093"))
    VNone VNone "show".

(** A Trakt-like record without the id keys. *)
Definition reloaded_ref : pydict :=
  list_to_map
    [("title", VStr (u "The Matrix Reloaded")); ("year", VStr (u "2003"));
     ("kind", VStr (u "movie"))].

Definition thematrix_ref : pydict :=
  reference "TheMatrix" VNone VNone VNone VNone "movie".

Definition untitled_ref : pydict :=
  reference "" VNone VNone (VStr []) VNone "movie".

Definition shawshank_lib : pydict :=
  library_item "The Shawshank Redemption" "1994" (VStr (u "tt0111161"))
    VNone VNone 11 "movie".

Definition godfather_lib : pydict :=
  library_item "The Godfather" "1972" VNone (VStr (u "278")) VNone
    12 "movie".

(** The imdb id is that of the first item, the numeric tmdb id that of the
    second. *)
Definition conflict_ref : pydict :=
  reference "Shawshank Redemption" (VStr (u "1994")) (VStr (u "tt0111161"))
    (VInt 278) VNone "movie".

Definition it_1990 : pydict :=
  library_item "It" "1990" VNone VNone VNone 21 "movie".

Definition it_2017 : pydict :=
  library_item "It" "2017" VNone VNone VNone 22 "movie".

Definition it_2017_copy : pydict :=
  library_item "IT" "2017" VNone VNone VNone 23 "movie".

Definition it_ref : pydict :=
  reference "It" (VStr (u "2017")) VNone VNone VNone "movie".

Definition it_index : gmap (pystr * pyval) pydict :=
  default ∅ (build_title_year_index [it_1990; it_2017]).

Definition dup_first : pydict :=
  library_item "Heat" "1995" (VStr (u "tt0113277")) VNone VNone 31 "movie".

Definition dup_second : pydict :=
  library_item "HEAT" "1995" (VStr (u "tt0113277")) VNone VNone 32 "movie".

(** ** Shape of a normalised title *)

(** A text in which every separator is a space, no space follows a space,
    and folding case and apostrophes changes nothing. *)
Definition tidy (r : pystr) : Prop :=
  Forall (fun c => is_sep c = true -> c = 32%N) r
  /\ Forall (fun c => fold_char c = c) r
  /\ forall l1 l2, r <> l1 ++ 32%N :: 32%N :: l2.

(** ** File-name slugs *)

Module Slug.

(** The complement of the class [a-z0-9]. *)
Definition not_slug_char (c : N) : bool :=
  negb ((97 <=? c) && (c <=? 122) || (48 <=? c) && (c <=? 57))%N.

(** [re.sub] with a pattern [cls+] and the one-character replacement
    [rep]. *)
Fixpoint sub_runs_with (cls : N -> bool) (rep : N) (in_run : bool)
    (t : pystr) : pystr :=
  match t with
  | [] => []
  | c :: t' =>
      if cls c
      then (if in_run then sub_runs_with cls rep true t'
            else rep :: sub_runs_with cls rep true t')
      else c :: sub_runs_with cls rep false t'
  end.

Fixpoint lstrip_char (ch : N) (t : pystr) : pystr :=
  match t with
  | c :: t' => if (c =? ch)%N then lstrip_char ch t' else t
  | [] => []
  end.

(** [str.strip(ch)] for a one-character argument. *)
Definition strip_char (ch : N) (t : pystr) : pystr :=
  reverse (lstrip_char ch (reverse (lstrip_char ch t))).

(** The hyphen. *)
Definition dash : N := 45%N.

Definition slug (s : pystr) : pystr :=
  strip_char dash (sub_runs_with not_slug_char dash false (lower s)).

End Slug.

Import Slug.

(** ** The run over the source lists in [main] *)

Section Main.

Variable WRatio : pystr -> pystr -> Q.

(** The two lists that the loop over [src_bundles] in [main] builds for
    Radarr and Sonarr; logging and the files written on the way are left
    out. *)
Definition collect_missing (src_bundles : list (pystr * list pydict))
    (movies shows : list pydict) (fuzzy_threshold : Z) (prefer_ids : bool)
  : option (list pydict * list pydict) :=
  foldl (fun acc bundle =>
           '(radarr_missing_movies, sonarr_missing_shows) ← acc;
           '((_, missing_movies), (_, missing_shows)) ←
             reconcile_bundle WRatio bundle.2 movies shows
               fuzzy_threshold prefer_ids;
           Some (radarr_missing_movies ++ missing_movies,
                 sonarr_missing_shows ++ missing_shows))
        (Some ([], [])) src_bundles.

End Main.

(** ** Lookup terms for Radarr and Sonarr *)

(** The term [radarr_add_missing] looks a movie up with: the imdb id, else
    the tmdb id, else the title followed by the year in parentheses.
    [None] stands for the [KeyError] of a record without title. *)
Definition radarr_look_term (m : pydict) : option pystr :=
  let imdb := get m "imdb_id" in
  let tmdb := get m "tmdb_id" in
  if truthy imdb then Some (u "imdb:" ++ format imdb)
  else if truthy tmdb then Some (u "tmdb:" ++ format tmdb)
  else
    title ← m !! "title";
    Some (format title ++ u " (" ++ format (default (VStr []) (m !! "year"))
          ++ u ")").

(** The term of [sonarr_add_missing]: the tvdb id, else the imdb id, else
    the value of the title. *)
Definition sonarr_term (s : pydict) : option pyval :=
  if truthy (get s "tvdb_id")
  then Some (VStr (u "tvdb:" ++ format (get s "tvdb_id")))
  else if truthy (get s "imdb_id")
  then Some (VStr (u "imdb:" ++ format (get s "imdb_id")))
  else s !! "title".

(** ** The Plex library *)

Section Plex.

(** The class [\d] of a [str] pattern: the Unicode decimal digits, whose
    extent depends on the interpreter. *)
Variable is_digit : N -> bool.

(** A guid of a Plex item: its [id] attribute, if it has one, and what
    [str] gives for it. *)
Record guid := { guid_id : option pystr; guid_str : pystr }.

(** [getattr(g, id, empty) or str(g)] *)
Definition guid_uri (g : guid) : pystr :=
  match guid_id g with
  | Some s => if bool_decide (s = []) then guid_str g else s
  | None => guid_str g
  end.

Fixpoint starts_with (pat t : pystr) : bool :=
  match pat, t with
  | [], _ => true
  | p :: pat', c :: t' => (p =? c)%N && starts_with pat' t'
  | _ :: _, [] => false
  end.

(** [pat in t] *)
Fixpoint contains (pat t : pystr) : bool :=
  starts_with pat t
  || match t with
     | [] => false
     | _ :: t' => contains pat t'
     end.

Fixpoint take_digits (t : pystr) : pystr :=
  match t with
  | c :: t' => if is_digit c then c :: take_digits t' else []
  | [] => []
  end.

(** The digits matched by [\d+] right after the literal [lit] when [t]
    starts with it. *)
Definition digits_after_here (lit t : pystr) : option pystr :=
  if starts_with lit t then
    match take_digits (drop (length lit) t) with
    | [] => None
    | ds => Some ds
    end
  else None.

(** [re.search] for the literal [lit] followed by [\d+]: the digits of
    the leftmost match. *)
Fixpoint search_digits_after (lit t : pystr) : option pystr :=
  match digits_after_here lit t with
  | Some ds => Some ds
  | None =>
      match t with
      | [] => None
      | _ :: t' => search_digits_after lit t'
      end
  end.

(** One iteration of the loop of [extract_ids_from_guids]. *)
Definition extract_ids_step (ids : pydict) (g : guid) : pydict :=
  let uri := guid_uri g in
  let ids :=
    if contains (u "imdb://") uri || contains (u "/title/tt") uri
       || contains (u "tt") uri
    then match search_digits_after (u "tt") uri with
         | Some ds => <["imdb_id" := VStr (u "tt" ++ ds)]> ids
         | None => ids
         end
    else ids in
  let ids :=
    if contains (u "themoviedb://") uri
    then match search_digits_after (u "themoviedb://") uri with
         | Some ds => <["tmdb_id" := VStr ds]> ids
         | None => ids
         end
    else ids in
  let ids :=
    if contains (u "thetvdb://") uri
    then match search_digits_after (u "thetvdb://") uri with
         | Some ds => <["tvdb_id" := VStr ds]> ids
         | None => ids
         end
    else ids in
  ids.

Definition no_ids : pydict :=
  list_to_map [("imdb_id", VNone); ("tmdb_id", VNone); ("tvdb_id", VNone)].

(** [guids] is [None] when the item has no such attribute. *)
Definition extract_ids_from_guids (guids : option (list guid)) : pydict :=
  foldl extract_ids_step no_ids (default [] guids).

(** A value of the ids dictionary: [None], or the prefix followed by at
    least one digit. *)
Definition id_value (prefix : pystr) (v : pyval) : Prop :=
  v = VNone
  \/ exists ds, ds <> [] /\ Forall (fun c => is_digit c = true) ds
                /\ v = VStr (prefix ++ ds).

(** What [gather_plex] reads of an item of a library section: its
    [title] attribute, copied as it is, whatever its type; its year (an
    [int], or [None] when there is none); its guids and its rating key. *)
Record plex_item := {
  item_title : pyval;
  item_year : pyval;
  item_guids : option (list guid);
  item_ratingKey : pyval
}.

(** The record appended for one item of a section. *)
Definition plex_record (kind : string) (m : plex_item) : pydict :=
  let ids := extract_ids_from_guids (item_guids m) in
  list_to_map
    [("title", item_title m);
     ("year", VStr (format (or_empty (item_year m))));
     ("imdb_id", get ids "imdb_id");
     ("tmdb_id", get ids "tmdb_id");
     ("tvdb_id", get ids "tvdb_id");
     ("ratingKey", item_ratingKey m);
     ("kind", VStr (u kind))].

(** [gather_plex] on the contents of the movie sections and of the show
    sections, each the list that [sec.all()] returns. *)
Definition gather_plex (movie_sections show_sections : list (list plex_item))
  : list pydict * list pydict :=
  (plex_record "movie" <$> concat movie_sections,
   plex_record "show" <$> concat show_sections).

(** What the record [r] of the item [m] holds: the seven keys; the title
    and the rating key of the item; the year as text, empty when the item
    has none; the kind of the list; and as identifiers the last ones that
    the guids of the item give, each [None] or a text that ends in at
    least one digit. *)
Definition record_of (kind : string) (m : plex_item) (r : pydict) : Prop :=
  dom r = list_to_set ["title"; "year"; "imdb_id"; "tmdb_id"; "tvdb_id";
                       "ratingKey"; "kind"]
  /\ r !! "title" = Some (item_title m)
  /\ r !! "year"
     = Some (VStr (if truthy (item_year m) then format (item_year m)
                   else []))
  /\ r !! "ratingKey" = Some (item_ratingKey m)
  /\ r !! "kind" = Some (VStr (u kind))
  /\ (forall key, key ∈ id_keys ->
        r !! key = Some (get (extract_ids_from_guids (item_guids m)) key))
  /\ id_value (u "tt") (get r "imdb_id")
  /\ id_value [] (get r "tmdb_id")
  /\ id_value [] (get r "tvdb_id").

End Plex.

(** ** More sample data *)

(** A record with an imdb id and no title. *)
Definition id_only_ref : pydict :=
  list_to_map [("imdb_id", VStr (u "tt0133093")); ("kind", VStr (u "movie"))].

(** A record whose title is [None]. *)
Definition title_none_ref : pydict :=
  list_to_map
    [("title", VNone); ("year", VNone); ("imdb_id", VNone);
     ("tmdb_id", VNone); ("tvdb_id", VNone); ("kind", VStr (u "movie"))].

Definition mixed_ref : pydict :=
  reference "The Matrix" (VStr (u "1999")) (VStr (u "tt0133093"))
    VNone VNone "mixed".

Definition it_ref_with_ids : pydict :=
  reference "It" (VStr (u "2017")) (VStr (u "tt1396484")) (VInt 346364)
    VNone "movie".

(** The ASCII digits, which every extent of [\d] includes. *)
Definition ascii_digit (c : N) : bool := ((48 <=? c) && (c <=? 57))%N.

Definition shawshank_guids : list guid :=
  [ {| guid_id := Some (u "imdb://tt0111161"); guid_str := [] |};
    {| guid_id := Some (u "tmdb://278"); guid_str := [] |};
    {| guid_id := Some (u "tvdb://80348"); guid_str := [] |} ].

Definition legacy_guids : list guid :=
  [ {| guid_id := Some (u "com.plexapp.agents.themoviedb://278?lang=en");
       guid_str := [] |} ].

Definition shawshank_item : plex_item :=
  {| item_title := VStr (u "The Shawshank Redemption");
     item_year := VInt 1994;
     item_guids := Some shawshank_guids;
     item_ratingKey := VInt 11 |}.


(** An item whose title is [None]. *)
Definition untitled_item : plex_item :=
  {| item_title := VNone;
     item_year := VNone;
     item_guids := None;
     item_ratingKey := VInt 12 |}.
(** ** Facts about the normaliser *)

Ltac char_cases :=
  repeat match goal with
         | |- context [(?a <=? ?b)%N] => destruct (N.leb_spec a b); try lia
         | |- context [(?a =? ?b)%N] => destruct (N.eqb_spec a b); try lia
         end; simpl; try reflexivity; try lia.

Lemma lower_char_cases c :
  lower_char c = c
  \/ ((65 <= c <= 90 \/ 192 <= c <= 222)%N /\ lower_char c = (c + 32)%N).
Proof.
  unfold lower_char.
  destruct ((65 <=? c) && (c <=? 90) || (192 <=? c) && (c <=? 214)
            || (216 <=? c) && (c <=? 222))%N eqn:E; [right|by left].
  split; [|done]. revert E. char_cases; discriminate.
Qed.

Lemma lower_char_space c : is_space (lower_char c) = is_space c.
Proof.
  destruct (lower_char_cases c) as [->|[Hc ->]]; [done|].
  unfold is_space. char_cases.
Qed.

Lemma lower_char_punct c : is_punct (lower_char c) = is_punct c.
Proof.
  destruct (lower_char_cases c) as [->|[Hc ->]]; [done|].
  unfold is_punct. char_cases.
Qed.

Lemma fold_char_space c : is_space (fold_char c) = is_space c.
Proof.
  unfold fold_char. cbv zeta. rewrite <- (lower_char_space c).
  generalize (lower_char c). intros d.
  destruct (is_apostrophe d) eqn:E; [|done].
  revert E. unfold is_apostrophe, is_space. char_cases; discriminate.
Qed.

Lemma fold_char_punct c : is_punct (fold_char c) = is_punct c.
Proof.
  unfold fold_char. cbv zeta. rewrite <- (lower_char_punct c).
  generalize (lower_char c). intros d.
  destruct (is_apostrophe d) eqn:E; [|done].
  revert E. unfold is_apostrophe, is_punct. char_cases; discriminate.
Qed.

Lemma fold_char_sep c : is_sep (fold_char c) = is_sep c.
Proof. unfold is_sep. by rewrite fold_char_space, fold_char_punct. Qed.

Lemma lstrip_lower t : lstrip (lower t) = lower (lstrip t).
Proof.
  induction t as [|c t IH]; [done|]. cbn.
  rewrite lower_char_space. by destruct (is_space c).
Qed.

Lemma strip_lower t : strip (lower t) = lower (strip t).
Proof.
  assert (forall l, reverse (lower l) = lower (reverse l)) as Hrev
    by (intros l; unfold lower; by rewrite fmap_reverse).
  unfold strip. by rewrite lstrip_lower, Hrev, lstrip_lower, Hrev.
Qed.

Lemma strip_no_edge_space t : no_edge_space t -> strip t = t.
Proof. intros [H1 H2]. unfold strip. by rewrite H1, H2, reverse_involutive. Qed.

(** Replacing the punctuation runs and then the whitespace runs amounts to
    replacing the separator runs. *)
Lemma sub_runs_merge t bp bw :
  (bp = true -> bw = true) ->
  sub_runs is_space bw (sub_runs is_punct bp t) = sub_runs is_sep bw t.
Proof.
  revert bp bw. induction t as [|c t IH]; intros bp bw Hb; [done|].
  cbn. unfold is_sep at 1.
  destruct (is_punct c) eqn:Ep; cbn.
  - destruct bp.
    + rewrite Hb by done. by apply IH.
    + cbn. destruct bw; rewrite IH by done; done.
  - destruct (is_space c); [destruct bw|]; by rewrite IH.
Qed.

Lemma normalize_title_sep t :
  normalize_title t
  = sub_runs is_sep false (fold_char <$> strip t).
Proof.
  unfold normalize_title. cbv zeta.
  rewrite sub_runs_merge by done.
  rewrite strip_lower. unfold sub_apostrophe, lower.
  by rewrite <- list_fmap_compose.
Qed.

Lemma title_equiv_sub_runs x y :
  title_equiv x y ->
  forall b, sub_runs is_sep b (fold_char <$> x)
            = sub_runs is_sep b (fold_char <$> y).
Proof.
  induction 1 as [|a b x y Ha Hb Hab _ IH|a b x y Ha Hb _ IH
                  |a b x y Ha Hb _ IH|a b x y Ha Hb _ IH]; intros fl.
  - done.
  - cbn. rewrite !fold_char_sep, Ha, Hb, Hab. by rewrite IH.
  - cbn. rewrite !fold_char_sep, Ha, Hb. by rewrite IH.
  - rewrite <- IH. cbn. rewrite !fold_char_sep, Ha, Hb. by destruct fl.
  - rewrite IH. cbn. rewrite !fold_char_sep, Ha, Hb. by destruct fl.
Qed.

(** C6: [normalize_title] is not idempotent.  The title is trimmed before
    the punctuation runs are replaced, so a title that ends in stripped
    punctuation keeps a trailing space, which a second application
    removes. *)
Theorem normalize_title_trailing_punct :
  normalize_title (u "Airplane!") = u "airplane "
  /\ normalize_title (normalize_title (u "Airplane!")) = u "airplane"
  /\ normalize_title (normalize_title (u "Airplane!"))
     <> normalize_title (u "Airplane!").
Proof. repeat split; compute_done. Qed.

(** Decides [differ_only_case_punct_apostrophe] on two given titles. *)
Ltac differ_only_tac :=
  solve [ apply dcp_nil
        | apply dcp_char; [reflexivity|differ_only_tac]
        | apply dcp_space; [reflexivity|differ_only_tac]
        | apply dcp_drop; [reflexivity|differ_only_tac] ].

(** C7, the claim as stated fails: like the two spellings of the
    Spider-Man title, AC/DC and ACDC differ only in a character of the
    stripped punctuation set, and their normal forms differ, since the
    slash becomes a space. *)
Lemma punctuation_removal_counterexample :
  differ_only_case_punct_apostrophe (u "Spider-Man: Homecoming")
    (u "Spider Man Homecoming")
  /\ differ_only_case_punct_apostrophe (u "AC/DC") (u "ACDC")
  /\ normalize_title (u "AC/DC") = u "ac dc"
  /\ normalize_title (u "ACDC") = u "acdc"
  /\ normalize_title (u "AC/DC") <> normalize_title (u "ACDC").
Proof.
  split; [vm_compute; differ_only_tac|].
  split; [vm_compute; differ_only_tac|].
  repeat split; compute_done.
Qed.

(** C7 (amended): the two Spider-Man spellings have one normal form, the
    accented and the unaccented Leon do not, and titles made of Basic
    Latin, Latin-1 and apostrophe characters, without whitespace at their
    ends, that differ only in case, in apostrophe glyph or in the make-up
    of their separator runs have one normal form. *)
Theorem normalization_equivalence :
  normalize_title (u "Spider-Man: Homecoming")
  = normalize_title (u "Spider Man Homecoming")
  /\ normalize_title (u "L" ++ [233%N] ++ u "on: The Professional")
     <> normalize_title (u "Leon The Professional")
  /\ forall x y,
       Forall (fun c => in_lower_range c = true) x ->
       Forall (fun c => in_lower_range c = true) y ->
       no_edge_space x -> no_edge_space y -> title_equiv x y ->
       normalize_title x = normalize_title y.
Proof.
  split; [compute_done|]. split; [compute_done|].
  intros x y _ _ Hx Hy Hxy.
  rewrite !normalize_title_sep, !strip_no_edge_space by done.
  by apply title_equiv_sub_runs.
Qed.

(** Decides [title_equiv] on two given titles by trying the four rules. *)
Ltac title_equiv_tac :=
  solve [ apply te_nil
        | apply te_char; [reflexivity|reflexivity|reflexivity|title_equiv_tac]
        | apply te_sep; [reflexivity|reflexivity|title_equiv_tac]
        | apply te_drop_l; [reflexivity|reflexivity|title_equiv_tac]
        | apply te_drop_r; [reflexivity|reflexivity|title_equiv_tac] ].

(** Two spellings of one title that differ in case, apostrophe glyph and
    separators. *)
Lemma normalization_equivalence_witness :
  Forall (fun c => in_lower_range c = true) (u "Child's Play - Part 2")
  /\ Forall (fun c => in_lower_range c = true)
       (u "CHILD" ++ [8217%N] ++ u "S PLAY: PART 2")
  /\ no_edge_space (u "Child's Play - Part 2")
  /\ no_edge_space (u "CHILD" ++ [8217%N] ++ u "S PLAY: PART 2")
  /\ title_equiv (u "Child's Play - Part 2")
                 (u "CHILD" ++ [8217%N] ++ u "S PLAY: PART 2")
  /\ normalize_title (u "Child's Play - Part 2")
     = normalize_title (u "CHILD" ++ [8217%N] ++ u "S PLAY: PART 2").
Proof.
  assert (Forall (fun c => in_lower_range c = true)
            (u "Child's Play - Part 2")) as R1 by compute_done.
  assert (Forall (fun c => in_lower_range c = true)
            (u "CHILD" ++ [8217%N] ++ u "S PLAY: PART 2")) as R2
    by compute_done.
  assert (no_edge_space (u "Child's Play - Part 2")) as H1
    by (split; vm_compute; reflexivity).
  assert (no_edge_space (u "CHILD" ++ [8217%N] ++ u "S PLAY: PART 2")) as H2
    by (split; vm_compute; reflexivity).
  assert (title_equiv (u "Child's Play - Part 2")
            (u "CHILD" ++ [8217%N] ++ u "S PLAY: PART 2")) as H3
    by (vm_compute; title_equiv_tac).
  exact (conj R1 (conj R2 (conj H1 (conj H2 (conj H3
           (proj2 (proj2 normalization_equivalence) _ _ R1 R2 H1 H2 H3)))))).
Defined.

(** ** Facts about the indexes *)

Lemma id_key_inj_key k1 k2 v1 v2 :
  k1 ∈ id_keys -> k2 ∈ id_keys -> id_key k1 v1 = id_key k2 v2 -> k1 = k2.
Proof.
  unfold id_keys. rewrite !elem_of_cons, !elem_of_nil.
  intros [->|[->|[->|[]]]] [->|[->|[->|[]]]]; try done; discriminate.
Qed.

Lemma truthy_not_blank it key : truthy (get it key) = true -> ~ blank it key.
Proof.
  unfold blank, get. intros Ht [H|[H|H]]; rewrite H in Ht; done.
Qed.

Lemma blank_not_truthy it key : blank it key -> truthy (get it key) = false.
Proof. unfold blank, get. intros [H|[H|H]]; by rewrite H. Qed.

Lemma elem_of_item_keys K it :
  K ∈ item_keys it <->
  exists key, key ∈ id_keys /\ truthy (get it key) = true
              /\ K = id_key key (get it key).
Proof.
  unfold item_keys. rewrite list_elem_of_omap. split.
  - intros (key & Hk & H). exists key.
    destruct (truthy (get it key)); naive_solver.
  - intros (key & Hk & Ht & ->). exists key. by rewrite Ht.
Qed.

Lemma index_item_lookup idx it K :
  index_item idx it !! K
  = if decide (K ∈ item_keys it) then Some it else idx !! K.
Proof.
  unfold index_item, item_keys. revert idx.
  induction id_keys as [|key keys IH]; intros idx; [done|].
  cbn [foldl omap]. rewrite IH. cbn.
  destruct (truthy (get it key)); cbn.
  - rewrite lookup_insert.
    destruct (decide (id_key key (get it key) = K)) as [<-|Hne].
    + rewrite (decide_True (P := _ ∈ _ :: _)) by apply list_elem_of_here.
      by case_decide.
    + case_decide as Hin.
      * by rewrite decide_True by (by apply list_elem_of_further).
      * rewrite decide_False; [done|].
        rewrite elem_of_cons. intros [?|?]; [by subst|done].
  - done.
Qed.

Lemma index_by_ids_lookup items K :
  index_by_ids items !! K = last (filter (fun it => K ∈ item_keys it) items).
Proof.
  unfold index_by_ids.
  induction items as [|it items IH] using rev_ind; [done|].
  rewrite foldl_snoc, index_item_lookup, filter_app, filter_cons, filter_nil.
  case_decide.
  - by rewrite last_snoc.
  - by rewrite app_nil_r.
Qed.

Lemma build_title_year_index_snoc items it :
  build_title_year_index (items ++ [it])
  = ty_step (build_title_year_index items) it.
Proof. unfold build_title_year_index. by rewrite foldl_snoc. Qed.

Lemma build_title_year_index_Some items :
  Forall has_title items -> is_Some (build_title_year_index items).
Proof.
  induction items as [|it items IH] using rev_ind; [by eexists|].
  rewrite Forall_app, Forall_singleton. intros [Hl [t Ht]].
  destruct (IH Hl) as [d Hd].
  rewrite build_title_year_index_snoc, Hd. unfold ty_step, ty_key.
  rewrite Ht. by eexists.
Qed.

Lemma build_title_year_index_has_title items d :
  build_title_year_index items = Some d -> Forall has_title items.
Proof.
  revert d. induction items as [|it items IH] using rev_ind; [done|].
  intros d. rewrite build_title_year_index_snoc. unfold ty_step, ty_key.
  destruct (build_title_year_index items) as [d'|]; [|done]. cbn.
  destruct (norm_title it) as [t|] eqn:Ht; [|done]. intros _.
  rewrite Forall_app, Forall_singleton. split; [by eapply IH|].
  by exists t.
Qed.

Lemma build_title_year_index_lookup items d k :
  build_title_year_index items = Some d ->
  d !! k = last (filter (fun it => ty_key it = Some k) items).
Proof.
  revert d. induction items as [|it items IH] using rev_ind; intros d.
  - intros [= <-]. done.
  - rewrite build_title_year_index_snoc. unfold ty_step.
    destruct (build_title_year_index items) as [d'|]; [|done]. cbn.
    destruct (ty_key it) as [k'|] eqn:Hk; [|done]. intros [= <-].
    rewrite filter_app, filter_cons, filter_nil, lookup_insert.
    case_decide as E1; case_decide as E2; try congruence.
    + by rewrite last_snoc.
    + rewrite app_nil_r. by apply IH.
Qed.

Lemma filter_none {A} (P : A -> Prop) `{!forall x, Decision (P x)}
    (l : list A) :
  Forall (fun x => ~ P x) l -> filter P l = [].
Proof.
  induction 1 as [|x l Hx _ IH]; [done|].
  by rewrite filter_cons, decide_False.
Qed.

Lemma last_filter_Some {A} (P : A -> Prop) `{!forall x, Decision (P x)}
    (l : list A) x :
  last (filter P l) = Some x -> x ∈ l /\ P x.
Proof.
  intros Hl. apply last_Some_elem_of in Hl.
  by apply list_elem_of_filter in Hl as [? ?].
Qed.

(** ** Facts about the reconciliation *)

Section MatchingFacts.

Variable WRatio : pystr -> pystr -> Q.

Lemma has_title_nonempty it : has_title it -> it <> ∅.
Proof.
  intros [t Ht] ->. unfold norm_title in Ht. by rewrite lookup_empty in Ht.
Qed.

Lemma has_title_found_true it : has_title it -> found_true (Some it) = true.
Proof.
  intros Hne%has_title_nonempty. cbn. by rewrite bool_decide_eq_false_2.
Qed.

Lemma index_by_ids_elem items K r :
  index_by_ids items !! K = Some r -> r ∈ items /\ K ∈ item_keys r.
Proof.
  rewrite index_by_ids_lookup.
  apply (last_filter_Some (fun it => K ∈ item_keys it)).
Qed.

Lemma ty_index_elem items d k r :
  build_title_year_index items = Some d -> d !! k = Some r ->
  r ∈ items /\ ty_key r = Some k.
Proof.
  intros Hd. rewrite (build_title_year_index_lookup _ _ _ Hd).
  apply (last_filter_Some (fun it => ty_key it = Some k)).
Qed.

Lemma id_stage_Some keys s idx r :
  id_stage keys s idx = Some r ->
  exists key, key ∈ keys /\ truthy (get s key) = true
              /\ idx !! id_key key (get s key) = Some r.
Proof.
  induction keys as [|key keys IH]; [done|]. cbn.
  destruct (truthy (get s key)) eqn:Ht.
  - destruct (idx !! id_key key (get s key)) as [r'|] eqn:Hr.
    + intros [= ->]. exists key. split; [apply list_elem_of_here|done].
    + intros (k & Hk & H)%IH. exists k. split; [by apply list_elem_of_further|done].
  - intros (k & Hk & H)%IH. exists k. split; [by apply list_elem_of_further|done].
Qed.

Lemma pick_is_Some s c items :
  Forall has_title items -> is_Some (pick s c items).
Proof.
  induction 1 as [|p items [t Ht] _ IH]; [by eexists|].
  cbn. rewrite Ht. cbn. by destruct (_ && _).
Qed.

Lemma pick_Some s c items p :
  pick s c items = Some (Some p) ->
  p ∈ items /\ norm_title p = Some c /\ year_ok s p = true.
Proof.
  induction items as [|p' items IH]; [done|]. cbn.
  destruct (norm_title p') as [t|] eqn:Ht; [|done]. cbn.
  destruct (bool_decide (t = c)) eqn:Hc; cbn.
  - destruct (year_ok s p') eqn:Hy.
    + intros [= <-]. apply bool_decide_eq_true in Hc as ->.
      split; [apply list_elem_of_here|done].
    + intros (? & ? & ?)%IH. split; [by apply list_elem_of_further|done].
  - intros (? & ? & ?)%IH. split; [by apply list_elem_of_further|done].
Qed.

Lemma fuzzy_stage_is_Some s items titles th :
  has_title s -> Forall has_title items ->
  is_Some (fuzzy_stage WRatio s items titles th).
Proof.
  intros [st Hst] Hit. unfold fuzzy_stage. rewrite Hst. cbn.
  destruct (fuzzy_candidate _ _ _ _); [by apply pick_is_Some|by eexists].
Qed.

Lemma fuzzy_stage_elem s items titles th p :
  fuzzy_stage WRatio s items titles th = Some (Some p) -> p ∈ items.
Proof.
  unfold fuzzy_stage. destruct (norm_title s); [|done]. cbn.
  destruct (fuzzy_candidate _ _ _ _); [|done]. by intros (? & _)%pick_Some.
Qed.

Lemma match_one_is_Some items idx ty titles th pid s :
  has_title s -> Forall has_title items ->
  is_Some (match_one WRatio items idx ty titles th pid s).
Proof.
  intros Hs Hit. unfold match_one. cbv zeta.
  destruct (found_true (if pid then id_stage id_keys s idx else None)).
  - cbn. destruct (found_true _); [by eexists|].
    destruct (fuzzy_stage_is_Some s items titles th Hs Hit) as [h ->].
    by eexists.
  - unfold exact_stage. destruct Hs as [t Ht]. rewrite Ht. cbn.
    destruct (found_true _); [by eexists|].
    destruct (fuzzy_stage_is_Some s items titles th (ltac:(by exists t)) Hit)
      as [h ->].
    by eexists.
Qed.

(** Whatever stage produces it, the matched item is an item of the
    library the indexes were built from. *)
Lemma match_one_elem items ty titles th (pid : bool) s r :
  build_title_year_index items = Some ty ->
  match_one WRatio items (if pid then index_by_ids items else ∅)
    ty titles th pid s = Some (Some r) ->
  r ∈ items.
Proof.
  intros Hty. unfold match_one. cbv zeta.
  set (f0 := if pid then id_stage id_keys s _ else None).
  assert (forall r0, f0 = Some r0 -> r0 ∈ items) as Hf0.
  { intros r0. unfold f0. destruct pid; [|done].
    intros (key & _ & _ & Hr)%id_stage_Some.
    by apply index_by_ids_elem in Hr as [? _]. }
  assert (forall f1 : option pydict,
    (forall r1, f1 = Some r1 -> r1 ∈ items) ->
    (if found_true f1 then Some f1
     else hit ← fuzzy_stage WRatio s items titles th;
          Some (match hit with Some p => Some p | None => f1 end))
    = Some (Some r) -> r ∈ items) as Hrest.
  { intros f1 Hf1. destruct (found_true f1).
    - intros [= ->]. by apply Hf1.
    - destruct (fuzzy_stage WRatio s items titles th) as [[p|]|] eqn:Hfz;
        cbn; [|by intros [= ->]; apply Hf1|done].
      intros [= <-]. by eapply fuzzy_stage_elem. }
  destruct (found_true f0).
  - cbn. by apply Hrest.
  - unfold exact_stage. destruct (norm_title s) as [t|]; [|done]. cbn.
    apply Hrest. intros r1 Hr1.
    by destruct (ty_index_elem _ _ _ _ Hty Hr1).
Qed.

Lemma interleave_length {A} (l1 l2 l : list A) :
  interleave l1 l2 l -> length l1 + length l2 = length l.
Proof. induction 1; cbn; lia. Qed.

Lemma interleave_sublist {A} (l1 l2 l : list A) :
  interleave l1 l2 l -> l1 `sublist_of` l /\ l2 `sublist_of` l.
Proof.
  induction 1 as [|x l1 l2 l _ [IH1 IH2]|x l1 l2 l _ [IH1 IH2]].
  - split; constructor.
  - split; [by apply sublist_skip|by apply sublist_cons].
  - split; [by apply sublist_cons|by apply sublist_skip].
Qed.

Lemma interleave_elem_of {A} (l1 l2 l : list A) x :
  interleave l1 l2 l -> x ∈ l <-> x ∈ l1 \/ x ∈ l2.
Proof.
  induction 1 as [|y l1 l2 l _ IH|y l1 l2 l _ IH];
    rewrite ?elem_of_cons, ?elem_of_nil; [tauto|rewrite IH..]; tauto.
Qed.

Section Loop.

Variables (items : list pydict) (idx : gmap pystr pydict)
  (ty : gmap (pystr * pyval) pydict) (titles : list pystr)
  (th : Z) (pid : bool).

Let found_of := match_one WRatio items idx ty titles th pid.

Let step := fun (acc : option (list pydict * list pydict)) (s : pydict) =>
  _ ← acc; found ← found_of s; classify acc s found.

Lemma match_loop_None src : foldl step None src = None.
Proof. by induction src. Qed.

Lemma match_loop_spec src : forall p0 m0 p m,
  foldl step (Some (p0, m0)) src = Some (p, m) ->
  exists matched ps ms,
    p = p0 ++ ps /\ m = m0 ++ ms /\ interleave matched ms src
    /\ Forall2 (fun s e => exists r,
          found_of s = Some (Some r) /\ found_true (Some r) = true
          /\ e = mark s r) matched ps
    /\ Forall (fun s => exists f,
          found_of s = Some f /\ found_true f = false) ms.
Proof.
  induction src as [|s src IH]; intros p0 m0 p m.
  - intros [= <- <-]. exists [], [], [].
    rewrite !app_nil_r. repeat split; constructor.
  - cbn [foldl]. unfold step at 2. cbn.
    destruct (found_of s) as [f|] eqn:Hf; cbn;
      [|by rewrite match_loop_None].
    destruct (found_true f) eqn:Hft.
    + destruct f as [r|]; [|done].
      intros (matched & ps & ms & -> & -> & Hil & Hps & Hms)%IH.
      exists (s :: matched), (mark s r :: ps), ms.
      rewrite <- app_assoc. repeat split; [by constructor| |done].
      constructor; [|done]. by exists r.
    + intros H.
      assert (foldl step (Some (p0, m0 ++ [s])) src = Some (p, m)) as H'.
      { by destruct f. }
      apply IH in H' as (matched & ps & ms & -> & -> & Hil & Hps & Hms).
      exists matched, ps, (s :: ms).
      rewrite <- app_assoc. repeat split; [by constructor|done|].
      constructor; [|done]. by exists f.
Qed.

Lemma match_loop_is_Some src :
  Forall has_title src -> Forall has_title items ->
  forall p0 m0, is_Some (foldl step (Some (p0, m0)) src).
Proof.
  intros Hsrc Hit. induction Hsrc as [|s src Hs _ IH]; intros p0 m0;
    [by eexists|].
  cbn [foldl]. unfold step at 2. cbn.
  destruct (match_one_is_Some items idx ty titles th pid s Hs Hit)
    as [f Hf].
  unfold found_of. rewrite Hf. cbn.
  destruct f as [r|]; [destruct (found_true _)|]; apply IH.
Qed.

End Loop.

Lemma find_match_elem items th pid s r :
  find_match WRatio items th pid s = Some (Some r) ->
  r ∈ items /\ has_title r.
Proof.
  unfold find_match. cbv zeta.
  destruct (build_title_year_index items) as [ty|] eqn:Hty; [|done]. cbn.
  destruct (mapM norm_title items) as [titles|]; [|done]. cbn.
  intros Hr%match_one_elem; [|done]. split; [done|].
  apply build_title_year_index_has_title in Hty.
  by eapply Forall_forall in Hty.
Qed.

Lemma match_present_spec src items th pid present missing :
  match_present WRatio src items th pid = Some (present, missing) ->
  exists matched,
    interleave matched missing src
    /\ Forall2 (fun s e => exists r,
          find_match WRatio items th pid s = Some (Some r)
          /\ e = mark s r) matched present
    /\ Forall (fun s => exists f,
          find_match WRatio items th pid s = Some f
          /\ found_true f = false) missing.
Proof.
  unfold match_present, find_match. cbv zeta.
  destruct (build_title_year_index items) as [ty|]; [|done]. cbn.
  destruct (mapM norm_title items) as [titles|]; [|done]. cbn.
  intros (matched & ps & ms & -> & -> & Hil & Hps & Hms)%match_loop_spec.
  exists matched. cbn. split; [done|]. split; [|done].
  eapply Forall2_impl; [exact Hps|]. cbn. intros s e (r & ? & _ & ?).
  by exists r.
Qed.

Lemma match_present_is_Some src items th pid :
  Forall has_title src -> Forall has_title items ->
  is_Some (match_present WRatio src items th pid).
Proof.
  intros Hsrc Hit. unfold match_present. cbv zeta.
  destruct (build_title_year_index_Some items Hit) as [ty ->]. cbn.
  destruct (mapM_is_Some_2 norm_title items) as [titles ->]; [done|]. cbn.
  by apply match_loop_is_Some.
Qed.

(** *** The best choice *)

Lemma Qle_bool_false a b : Qle_bool a b = false -> (b < a)%Q.
Proof.
  intros H. apply Qnot_le_lt. rewrite <- Qle_bool_iff. congruence.
Qed.

Lemma extractOne_from_best q choices :
  (forall t, t ∈ choices -> (0 <= WRatio q t <= 100)%Q) ->
  forall key cutoff result,
    match result with
    | None => cutoff = 0%Q
    | Some (_, sc, _) => cutoff = sc /\ (sc <= 100)%Q
    end ->
    match extractOne_from WRatio q key choices cutoff result with
    | None => result = None /\ choices = []
    | Some (c, sc, k) =>
        (result = Some (c, sc, k) \/ (c ∈ choices /\ sc = WRatio q c))
        /\ (forall t, t ∈ choices -> (WRatio q t <= sc)%Q)
        /\ (forall c0 s0 k0, result = Some (c0, s0, k0) -> (s0 <= sc)%Q)
    end.
Proof.
  induction choices as [|choice rest IH]; intros Hrange key cutoff result Hinv.
  - cbn. destruct result as [[[c sc] k]|]; [|done].
    split; [by left|]. split; [by intros t ?%elem_of_nil|].
    intros c0 s0 k0 [= -> -> ->]. apply Qle_refl.
  - assert (0 <= WRatio q choice <= 100)%Q as Hsc
      by apply Hrange, list_elem_of_here.
    assert (forall t, t ∈ rest -> (0 <= WRatio q t <= 100)%Q) as Hrest
      by (intros t Ht; by apply Hrange, list_elem_of_further).
    cbn [extractOne_from]. cbv zeta.
    set (score := WRatio q choice) in *.
    set (take := Qle_bool cutoff score
                 && match result with
                    | Some (_, best, _) => Qlt_bool best score
                    | None => true
                    end).
    assert (take = true -> forall c0 s0 k0,
              result = Some (c0, s0, k0) -> (s0 <= score)%Q) as Htake_true.
    { unfold take. intros [H1 _]%andb_true_iff c0 s0 k0 ->.
      destruct Hinv as [-> _]. by apply Qle_bool_iff. }
    assert (take = false -> exists c0 s0 k0,
              result = Some (c0, s0, k0) /\ (score <= s0)%Q) as Htake_false.
    { unfold take. destruct result as [[[c0 s0] k0]|].
      - destruct Hinv as [-> Hs0]. intros Ht. exists c0, s0, k0.
        split; [done|]. apply andb_false_iff in Ht as [Ht|Ht].
        + apply Qle_bool_false in Ht. lra.
        + unfold Qlt_bool in Ht. apply negb_false_iff, Qle_bool_iff in Ht.
          done.
      - rewrite Hinv, andb_true_r. intros Ht%Qle_bool_false. lra. }
    destruct (Qeq_bool score 100) eqn:Hopt.
    + apply Qeq_bool_iff in Hopt. destruct take eqn:Ht.
      * split; [right; split; [apply list_elem_of_here|done]|]. split.
        -- intros t Ht'%Hrange. lra.
        -- by apply Htake_true.
      * destruct (Htake_false eq_refl) as (c0 & s0 & k0 & -> & Hle).
        split; [by left|]. split.
        -- intros t Ht'%Hrange. lra.
        -- intros ? ? ? [= -> -> ->]. lra.
    + specialize (IH Hrest (S key) (if take then score else cutoff)
                    (if take then Some (choice, score, key) else result)).
      destruct take eqn:Ht.
      * specialize (IH (conj eq_refl (proj2 Hsc))).
        destruct (extractOne_from _ _ _ _ _ _) as [[[c sc] k]|];
          [|by destruct IH].
        destruct IH as (H1 & H2 & H3). specialize (H3 _ _ _ eq_refl).
        split; [right|split].
        -- destruct H1 as [[= <- <- <-]|[? ?]];
             [split; [apply list_elem_of_here|done]
             |split; [by apply list_elem_of_further|done]].
        -- intros t [->|Hin]%elem_of_cons; [done|by apply H2].
        -- intros c0 s0 k0 Hres.
           specialize (Htake_true eq_refl _ _ _ Hres). lra.
      * destruct (Htake_false eq_refl) as (c0 & s0 & k0 & -> & Hle).
        specialize (IH Hinv).
        destruct (extractOne_from _ _ _ _ _ _) as [[[c sc] k]|];
          [|by destruct IH].
        destruct IH as (H1 & H2 & H3). specialize (H3 _ _ _ eq_refl).
        split; [|split].
        -- destruct H1 as [?|[? ?]]; [by left|right].
           split; [by apply list_elem_of_further|done].
        -- intros t [->|Hin]%elem_of_cons; [fold score; lra|by apply H2].
        -- intros ? ? ? [= -> -> ->]. done.
Qed.

(** On scores between 0 and 100 [extractOne] returns a choice of the
    highest score, and nothing only for an empty list. *)
Lemma extractOne_best q titles :
  (forall t, t ∈ titles -> (0 <= WRatio q t <= 100)%Q) ->
  match extractOne WRatio q titles with
  | None => titles = []
  | Some (c, sc, _) =>
      c ∈ titles /\ sc = WRatio q c
      /\ forall t, t ∈ titles -> (WRatio q t <= sc)%Q
  end.
Proof.
  intros Hrange. unfold extractOne.
  pose proof (extractOne_from_best q titles Hrange 0 0%Q None eq_refl) as H.
  destruct (extractOne_from _ _ _ _ _ _) as [[[c sc] k]|]; [|by destruct H].
  destruct H as ([?|[? ?]] & H2 & _); done.
Qed.

(** ** The claims about the indexes and the reconciliation *)

(** C8: building the two indexes never fails on duplicates and the last
    writer wins.  An item followed by no item with the same key is the
    value of that key in the index, whatever items precede it: the entry
    of [index_by_ids] for each of its keys, and the entry of the index
    that [build_title_year_index] returns for its title and year.  The
    latter returns on every library whose items have a [str] title. *)
Theorem index_last_write_wins (l1 l2 : list pydict) (r : pydict) :
  Forall has_title (l1 ++ r :: l2) ->
  (forall K,
     K ∈ item_keys r -> Forall (fun it => K ∉ item_keys it) l2 ->
     index_by_ids (l1 ++ r :: l2) !! K = Some r)
  /\ exists d,
       build_title_year_index (l1 ++ r :: l2) = Some d
       /\ forall k,
            ty_key r = Some k -> Forall (fun it => ty_key it <> Some k) l2 ->
            d !! k = Some r.
Proof.
  intros Hit. split.
  - intros K HK Hl2.
    rewrite index_by_ids_lookup, filter_app, filter_cons_True by done.
    rewrite (filter_none _ l2) by done. apply last_snoc.
  - destruct (build_title_year_index_Some _ Hit) as [d Hd].
    exists d. split; [done|]. intros k Hk Hl2.
    rewrite (build_title_year_index_lookup _ _ _ Hd).
    rewrite filter_app, filter_cons_True by done.
    rewrite (filter_none _ l2) by done. apply last_snoc.
Qed.

(** C10: an identifier that is absent, [None] or the empty string counts
    as not present on both sides.  Every entry of the identifier index
    comes from an identifier of a library item that is not blank; a blank
    key of a reference record is passed over by the identifier stage; and
    a reference record whose three identifiers are blank gets no
    identifier match and is handled by the title stages alone. *)
Theorem blank_identifier_not_present :
  (forall items K r,
     index_by_ids items !! K = Some r ->
     r ∈ items
     /\ exists key, key ∈ id_keys /\ ~ blank r key
                    /\ K = id_key key (get r key))
  /\ (forall items key v,
        key ∈ id_keys -> Forall (fun it => blank it key) items ->
        index_by_ids items !! id_key key v = None)
  /\ (forall s idx keys1 key keys2,
        blank s key ->
        id_hit s idx key = None
        /\ id_stage (keys1 ++ key :: keys2) s idx
           = id_stage (keys1 ++ keys2) s idx)
  /\ (forall items idx ty titles th s,
        (forall key, key ∈ id_keys -> blank s key) ->
        id_stage id_keys s idx = None
        /\ match_one WRatio items idx ty titles th true s
           = match_one WRatio items idx ty titles th false s).
Proof.
  split; [|split; [|split]].
  - intros items K r [Hr HK]%index_by_ids_elem. split; [done|].
    apply elem_of_item_keys in HK as (key & Hk & Ht & ->).
    exists key. split; [done|]. split; [|done]. by apply truthy_not_blank.
  - intros items key v Hkey Hbl.
    destruct (index_by_ids items !! id_key key v) as [r|] eqn:Hr; [|done].
    apply index_by_ids_elem in Hr as [Hr HK].
    apply elem_of_item_keys in HK as (key' & Hk' & Ht & HK).
    apply id_key_inj_key in HK as <-; [|done..].
    rewrite Forall_forall in Hbl. by destruct (truthy_not_blank _ _ Ht); auto.
  - intros s idx keys1 key keys2 Hb%blank_not_truthy.
    split; [unfold id_hit; by rewrite Hb|].
    induction keys1 as [|k keys1 IH]; cbn; [by rewrite Hb|].
    by rewrite IH.
  - intros items idx ty titles th s Hb.
    assert (id_stage id_keys s idx = None) as Hid.
    { unfold id_keys in *. cbn.
      rewrite !blank_not_truthy; [done|apply Hb..];
        rewrite !elem_of_cons; auto. }
    split; [done|]. unfold match_one. cbv zeta. by rewrite Hid.
Qed.


(** C9: [match_present] splits its source.  Whenever it returns, the
    source is an order-preserving merge of the records it matched and of
    [missing], [present] holds the matched records in their order, each
    with the rating key of its match, and the two lengths add up to the
    length of the source.  It returns on every source and library whose
    records have a [str] title. *)
Theorem match_present_partition src items th pid :
  (forall present missing,
     match_present WRatio src items th pid = Some (present, missing) ->
     length present + length missing = length src
     /\ missing `sublist_of` src
     /\ exists matched,
          interleave matched missing src
          /\ matched `sublist_of` src
          /\ Forall2 (fun s e => exists r,
                find_match WRatio items th pid s = Some (Some r)
                /\ e = mark s r) matched present
          /\ Forall (fun s => exists f,
                find_match WRatio items th pid s = Some f
                /\ found_true f = false) missing)
  /\ (Forall has_title src -> Forall has_title items ->
      is_Some (match_present WRatio src items th pid)).
Proof.
  split; [|apply match_present_is_Some].
  intros present missing (matched & Hil & Hps & Hms)%match_present_spec.
  pose proof (interleave_length _ _ _ Hil) as Hlen.
  pose proof (interleave_sublist _ _ _ Hil) as [Hs1 Hs2].
  rewrite (Forall2_length _ _ _ Hps) in Hlen.
  split; [done|]. split; [done|]. by exists matched.
Qed.

(** C1: the identifier stage tries imdb, tmdb, tvdb in this order and the
    first hit wins.  For a reference record whose imdb id and tmdb id
    both resolve in the index of a library with [str] titles, to different
    items, the match is the item the imdb id resolves to, and
    [match_present] with [prefer_ids] reports the record as present with
    the rating key of that item. *)
Theorem identifier_priority items th s r_imdb r_tmdb :
  Forall has_title items ->
  truthy (get s "imdb_id") = true ->
  truthy (get s "tmdb_id") = true ->
  index_by_ids items !! id_key "imdb_id" (get s "imdb_id") = Some r_imdb ->
  index_by_ids items !! id_key "tmdb_id" (get s "tmdb_id") = Some r_tmdb ->
  r_imdb <> r_tmdb ->
  find_match WRatio items th true s = Some (Some r_imdb)
  /\ (forall src present missing,
        s ∈ src ->
        match_present WRatio src items th true = Some (present, missing) ->
        mark s r_imdb ∈ present /\ s ∉ missing)
  /\ (forall s' idx,
        id_stage id_keys s' idx
        = match id_hit s' idx "imdb_id" with
          | Some r => Some r
          | None =>
              match id_hit s' idx "tmdb_id" with
              | Some r => Some r
              | None => id_hit s' idx "tvdb_id"
              end
          end).
Proof.
  intros Hit Himdb Htmdb Hr1 Hr2 Hne.
  assert (find_match WRatio items th true s = Some (Some r_imdb)) as Hfm.
  { unfold find_match. cbv zeta.
    destruct (build_title_year_index_Some items Hit) as [ty ->]. cbn.
    destruct (mapM_is_Some_2 norm_title items) as [titles ->]; [done|]. cbn.
    unfold match_one. cbv zeta. cbn [id_stage id_keys].
    rewrite Himdb, Hr1.
    apply index_by_ids_elem in Hr1 as [Hin _].
    rewrite Forall_forall in Hit.
    rewrite (has_title_found_true r_imdb (Hit _ Hin)). cbn [mbind option_bind].
    by rewrite (has_title_found_true r_imdb (Hit _ Hin)). }
  split; [done|]. split.
  - intros src present missing Hs Hmp.
    apply match_present_spec in Hmp as (matched & Hil & Hps & Hms).
    assert (s ∉ missing) as Hnm.
    { intros Hin. rewrite Forall_forall in Hms.
      destruct (Hms _ Hin) as (f & Hf & Hft).
      rewrite Hfm in Hf. injection Hf as <-.
      apply index_by_ids_elem in Hr1 as [Hin1 _].
      rewrite Forall_forall in Hit.
      by rewrite (has_title_found_true r_imdb (Hit _ Hin1)) in Hft. }
    split; [|done].
    destruct (proj1 (interleave_elem_of _ _ _ s Hil) Hs) as [Hs'|Hs'];
      [|done].
    apply list_elem_of_lookup in Hs' as [i Hi].
    destruct (Forall2_lookup_l _ _ _ _ _ Hps Hi) as (e & He & r & Hr & ->).
    rewrite Hfm in Hr. injection Hr as <-.
    by eapply list_elem_of_lookup_2.
  - intros s' idx. unfold id_hit. cbn.
    destruct (truthy (get s' "imdb_id")), (truthy (get s' "tmdb_id")),
      (truthy (get s' "tvdb_id")); try done;
      repeat (destruct (idx !! _); try done).
Qed.

(** C2: kind isolation.  [main] passes the movie references to
    [match_present] with the movie partition of the library and the show
    references with the show partition.  Every record reported present
    among the movies is a reference of kind movie whose match is an item
    of the movie partition, hence not of kind show when the partition
    holds movies only; and the same with the two kinds exchanged. *)
Theorem kind_isolation items movies shows th pid pm mm ps ms :
  Forall (fun m => get m "kind" = VStr (u "movie")) movies ->
  Forall (fun m => get m "kind" = VStr (u "show")) shows ->
  reconcile_bundle WRatio items movies shows th pid
  = Some ((pm, mm), (ps, ms)) ->
  (forall e, e ∈ pm ->
     exists s r,
       s ∈ items /\ get s "kind" = VStr (u "movie")
       /\ find_match WRatio movies th pid s = Some (Some r)
       /\ e = mark s r
       /\ r ∈ movies /\ get r "kind" <> VStr (u "show"))
  /\ (forall e, e ∈ ps ->
       exists s r,
         s ∈ items /\ get s "kind" = VStr (u "show")
         /\ find_match WRatio shows th pid s = Some (Some r)
         /\ e = mark s r
         /\ r ∈ shows /\ get r "kind" <> VStr (u "movie")).
Proof.
  intros Hmov Hsho. unfold reconcile_bundle. cbv zeta.
  destruct (match_present WRatio (filter _ items) movies th pid)
    as [[pm' mm']|] eqn:Hm; [|done]. cbn.
  destruct (match_present WRatio (filter _ items) shows th pid)
    as [[ps' ms']|] eqn:Hs; [|done]. cbn.
  intros [= -> -> -> ->].
  apply match_present_spec in Hm as (mt1 & Hil1 & Hps1 & _).
  apply match_present_spec in Hs as (mt2 & Hil2 & Hps2 & _).
  rewrite Forall_forall in Hmov. rewrite Forall_forall in Hsho.
  split.
  - intros e [i Hi]%list_elem_of_lookup.
    destruct (Forall2_lookup_r _ _ _ _ _ Hps1 Hi) as (s & Hsi & r & Hr & ->).
    apply list_elem_of_lookup_2 in Hsi.
    assert (s ∈ filter (fun x => get x "kind" = VStr (u "movie")) items)
      as [Hk Hin]%list_elem_of_filter
      by (apply (interleave_elem_of _ _ _ s Hil1); by left).
    destruct (find_match_elem _ _ _ _ _ Hr) as [Hrin _].
    exists s, r. repeat split; try done.
    rewrite (Hmov r Hrin). discriminate.
  - intros e [i Hi]%list_elem_of_lookup.
    destruct (Forall2_lookup_r _ _ _ _ _ Hps2 Hi) as (s & Hsi & r & Hr & ->).
    apply list_elem_of_lookup_2 in Hsi.
    assert (s ∈ filter (fun x => get x "kind" = VStr (u "show")) items)
      as [Hk Hin]%list_elem_of_filter
      by (apply (interleave_elem_of _ _ _ s Hil2); by left).
    destruct (find_match_elem _ _ _ _ _ Hr) as [Hrin _].
    exists s, r. repeat split; try done.
    rewrite (Hsho r Hrin). discriminate.
Qed.

(** C4: the threshold is inclusive.  When the highest score of the
    library titles equals [fuzzy_threshold], the best choice is accepted
    and the stage goes on to the year test over the library; when it
    equals [fuzzy_threshold - 1], nothing is accepted and the stage
    produces no match. *)
Theorem fuzzy_threshold_boundary s st items titles th (best : Q) :
  norm_title s = Some st ->
  (forall t, t ∈ titles -> (0 <= WRatio st t <= 100)%Q) ->
  (exists c, c ∈ titles /\ (WRatio st c == best)%Q) ->
  (forall t, t ∈ titles -> (WRatio st t <= best)%Q) ->
  ((best == inject_Z th)%Q ->
     exists c,
       c ∈ titles /\ (WRatio st c == best)%Q
       /\ fuzzy_candidate WRatio st titles th = Some c
       /\ fuzzy_stage WRatio s items titles th = pick s c items)
  /\ ((best == inject_Z (th - 1))%Q ->
      fuzzy_candidate WRatio st titles th = None
      /\ fuzzy_stage WRatio s items titles th = Some None).
Proof.
  intros Hst Hrange (c' & Hc' & Hbest) Hmax.
  pose proof (extractOne_best st titles Hrange) as Hex.
  unfold fuzzy_stage, fuzzy_candidate. rewrite Hst. cbn.
  destruct (extractOne WRatio st titles) as [[[c sc] k]|];
    [|by subst; apply elem_of_nil in Hc'].
  destruct Hex as (Hc & -> & Hall).
  assert (WRatio st c == best)%Q as Hsc.
  { apply Qle_antisym; [by apply Hmax|]. rewrite <- Hbest. by apply Hall. }
  split.
  - intros Hth. exists c.
    assert (Qle_bool (inject_Z th) (WRatio st c) = true) as ->
      by (apply Qle_bool_iff; lra).
    done.
  - intros Hth.
    assert (inject_Z (th - 1) < inject_Z th)%Q as Hlt
      by (rewrite <- Zlt_Qlt; lia).
    destruct (Qle_bool (inject_Z th) (WRatio st c)) eqn:E; [|done].
    apply Qle_bool_iff in E. lra.
Qed.

(** C5 (amended): on a library whose items have a [str] title the fuzzy
    stage returns for a reference whose normalised title is empty, at
    every threshold; when the scorer gives the empty query the score 0
    against every library title, as [WRatio] does, and the threshold is at
    least 1, it accepts no candidate and produces no match. *)
Theorem empty_title_fuzzy s items titles th :
  norm_title s = Some [] ->
  Forall has_title items ->
  (forall th', is_Some (fuzzy_stage WRatio s items titles th'))
  /\ ((forall c, c ∈ titles -> (WRatio [] c == 0)%Q) ->
      (1 <= th)%Z ->
      fuzzy_candidate WRatio [] titles th = None
      /\ fuzzy_stage WRatio s items titles th = Some None).
Proof.
  intros Hst Hit. split.
  - intros th'. apply fuzzy_stage_is_Some; [by eexists|done].
  - intros Hzero Hth.
    assert (forall t, t ∈ titles -> (0 <= WRatio [] t <= 100)%Q) as Hrange
      by (intros t Ht%Hzero; lra).
    pose proof (extractOne_best [] titles Hrange) as Hex.
    unfold fuzzy_stage, fuzzy_candidate. rewrite Hst. cbn.
    destruct (extractOne WRatio [] titles) as [[[c sc] k]|]; [|done].
    destruct Hex as (Hc%Hzero & -> & _).
    assert (inject_Z 0 < inject_Z th)%Q as Hlt
      by (rewrite <- Zlt_Qlt; lia).
    destruct (Qle_bool (inject_Z th) (WRatio [] c)) eqn:E; [|done].
    apply Qle_bool_iff in E. change (inject_Z 0) with 0%Q in Hlt. lra.
Qed.

(** With scores between 0 and 100 a threshold of 0 accepts the best
    choice of any library that is not empty. *)
Lemma fuzzy_candidate_threshold_zero q titles :
  (forall t, t ∈ titles -> (0 <= WRatio q t <= 100)%Q) ->
  titles <> [] ->
  is_Some (fuzzy_candidate WRatio q titles 0).
Proof.
  intros Hrange Hne. pose proof (extractOne_best q titles Hrange) as Hex.
  unfold fuzzy_candidate.
  destruct (extractOne WRatio q titles) as [[[c sc] k]|]; [|done].
  destruct Hex as (Hc%Hrange & -> & _).
  assert (Qle_bool (inject_Z 0) (WRatio q c) = true) as ->
    by (apply Qle_bool_iff; change (inject_Z 0) with 0%Q; lra).
  by eexists.
Qed.

End MatchingFacts.

(** ** The functions on sample data *)

(** The two end-to-end scenarios: a match by identifier whatever the
    spelling of the title, and no match for a title the library lacks. *)
Example matrix_scenario :
  match_present exact_ratio [matrix_ref; reloaded_ref] [matrix_lib] 90 true
  = Some ([mark matrix_ref matrix_lib], [reloaded_ref]).
Proof. compute_done. Qed.

(** Year disambiguation in the exact stage. *)
Example it_scenario :
  find_match exact_ratio [it_1990; it_2017] 90 true it_ref
  = Some (Some it_2017).
Proof. compute_done. Qed.

(** Of two library items with one imdb id and one title and year, the
    later one is in both indexes. *)
Example duplicate_scenario :
  index_by_ids [dup_first; dup_second] !! id_key "imdb_id" (VStr (u "tt0113277"))
  = Some dup_second
  /\ (build_title_year_index [dup_first; dup_second]
       ≫= fun d => d !! (u "heat", VStr (u "1995")))
     = Some dup_second.
Proof. split; compute_done. Qed.

(** C5, the claim as stated fails at threshold 0: the reference has an
    empty normalised title, the scorer gives it 0 against the only library
    title, and 0 reaches the threshold, so that the library item is
    matched. *)
Lemma empty_title_counterexample :
  norm_title untitled_ref = Some []
  /\ exact_ratio [] (u "the matrix") = 0%Q
  /\ fuzzy_candidate exact_ratio [] [u "the matrix"] 0 = Some (u "the matrix")
  /\ fuzzy_stage exact_ratio untitled_ref [matrix_lib] [u "the matrix"] 0
     = Some (Some matrix_lib)
  /\ match_present exact_ratio [untitled_ref] [matrix_lib] 0 true
     = Some ([mark untitled_ref matrix_lib], []).
Proof. repeat split; compute_done. Qed.

(** Two library items with one imdb id and one title and year: the second
    holds both entries. *)
Lemma index_last_write_wins_witness :
  Forall has_title ([] ++ dup_first :: [dup_second])
  /\ index_by_ids [dup_first; dup_second]
       !! id_key "imdb_id" (VStr (u "tt0113277")) = Some dup_second
  /\ exists d,
       build_title_year_index [dup_first; dup_second] = Some d
       /\ d !! (u "heat", VStr (u "1995")) = Some dup_second.
Proof.
  assert (Forall has_title ([dup_first] ++ dup_second :: [])) as H
    by compute_done.
  destruct (index_last_write_wins [dup_first] [] dup_second H)
    as [H1 (d & Hd & H2)].
  split; [exact H|]. split.
  - apply H1; [compute_done|constructor].
  - exists d. split; [exact Hd|]. apply H2; [compute_done|constructor].
Defined.

(** A reference whose ids are [None] or empty and one without id keys. *)
Lemma blank_identifier_not_present_witness :
  blank untitled_ref "imdb_id" /\ blank untitled_ref "tmdb_id"
  /\ blank reloaded_ref "tvdb_id"
  /\ id_stage id_keys untitled_ref (index_by_ids [matrix_lib]) = None
  /\ match_one exact_ratio [matrix_lib] (index_by_ids [matrix_lib])
       it_index [u "the matrix"] 90 true reloaded_ref
     = match_one exact_ratio [matrix_lib] (index_by_ids [matrix_lib])
         it_index [u "the matrix"] 90 false reloaded_ref.
Proof.
  assert (forall key, key ∈ id_keys -> blank untitled_ref key) as H1.
  { unfold id_keys. intros key.
    rewrite !elem_of_cons, elem_of_nil. intros [->|[->|[->|[]]]].
    - right; left; reflexivity.
    - right; right; reflexivity.
    - right; left; reflexivity. }
  assert (forall key, key ∈ id_keys -> blank reloaded_ref key) as H2.
  { unfold id_keys. intros key.
    rewrite !elem_of_cons, elem_of_nil.
    intros [->|[->|[->|[]]]]; left; reflexivity. }
  pose proof (blank_identifier_not_present exact_ratio) as (_ & _ & _ & H).
  split; [right; left; reflexivity|].
  split; [right; right; reflexivity|].
  split; [left; reflexivity|].
  split.
  - exact (proj1 (H [matrix_lib] (index_by_ids [matrix_lib]) it_index
                    [u "the matrix"] 90%Z untitled_ref H1)).
  - exact (proj2 (H [matrix_lib] (index_by_ids [matrix_lib]) it_index
                    [u "the matrix"] 90%Z reloaded_ref H2)).
Defined.


(** A reference whose imdb id and numeric tmdb id resolve to two library
    items. *)
Lemma identifier_priority_witness :
  Forall has_title [shawshank_lib; godfather_lib]
  /\ truthy (get conflict_ref "imdb_id") = true
  /\ truthy (get conflict_ref "tmdb_id") = true
  /\ index_by_ids [shawshank_lib; godfather_lib]
       !! id_key "imdb_id" (get conflict_ref "imdb_id") = Some shawshank_lib
  /\ index_by_ids [shawshank_lib; godfather_lib]
       !! id_key "tmdb_id" (get conflict_ref "tmdb_id") = Some godfather_lib
  /\ shawshank_lib <> godfather_lib
  /\ find_match exact_ratio [shawshank_lib; godfather_lib] 90 true
       conflict_ref = Some (Some shawshank_lib).
Proof.
  assert (Forall has_title [shawshank_lib; godfather_lib]) as H1
    by compute_done.
  assert (truthy (get conflict_ref "imdb_id") = true) as H2 by compute_done.
  assert (truthy (get conflict_ref "tmdb_id") = true) as H3 by compute_done.
  assert (index_by_ids [shawshank_lib; godfather_lib]
            !! id_key "imdb_id" (get conflict_ref "imdb_id")
          = Some shawshank_lib) as H4 by compute_done.
  assert (index_by_ids [shawshank_lib; godfather_lib]
            !! id_key "tmdb_id" (get conflict_ref "tmdb_id")
          = Some godfather_lib) as H5 by compute_done.
  assert (shawshank_lib <> godfather_lib) as H6 by compute_done.
  pose proof (identifier_priority exact_ratio _ 90%Z _ _ _ H1 H2 H3 H4 H5 H6)
    as [H7 _].
  exact (conj H1 (conj H2 (conj H3 (conj H4 (conj H5 (conj H6 H7)))))).
Defined.

(** A movie and a show with the same title, year and imdb id on both
    sides. *)
Lemma kind_isolation_witness :
  Forall (fun m => get m "kind" = VStr (u "movie")) [matrix_lib]
  /\ Forall (fun m => get m "kind" = VStr (u "show")) [matrix_show_lib]
  /\ reconcile_bundle exact_ratio [matrix_ref; matrix_show_ref]
       [matrix_lib] [matrix_show_lib] 90 true
     = Some (([mark matrix_ref matrix_lib], []),
             ([mark matrix_show_ref matrix_show_lib], []))
  /\ exists s r,
       s ∈ [matrix_ref; matrix_show_ref]
       /\ get s "kind" = VStr (u "movie")
       /\ find_match exact_ratio [matrix_lib] 90 true s = Some (Some r)
       /\ mark matrix_ref matrix_lib = mark s r
       /\ r ∈ [matrix_lib] /\ get r "kind" <> VStr (u "show").
Proof.
  assert (Forall (fun m => get m "kind" = VStr (u "movie")) [matrix_lib])
    as H1 by compute_done.
  assert (Forall (fun m => get m "kind" = VStr (u "show")) [matrix_show_lib])
    as H2 by compute_done.
  assert (reconcile_bundle exact_ratio [matrix_ref; matrix_show_ref]
            [matrix_lib] [matrix_show_lib] 90 true
          = Some (([mark matrix_ref matrix_lib], []),
                  ([mark matrix_show_ref matrix_show_lib], []))) as H3
    by compute_done.
  pose proof (kind_isolation exact_ratio _ _ _ _ _ _ _ _ _ H1 H2 H3)
    as [H4 _].
  exact (conj H1 (conj H2 (conj H3 (H4 _ (list_elem_of_here _ _))))).
Defined.

(** A best score of 90: accepted at threshold 90, rejected at 91. *)
Lemma fuzzy_threshold_boundary_witness :
  norm_title thematrix_ref = Some (u "thematrix")
  /\ (length_ratio (u "thematrix") (u "the matrix") == 90)%Q
  /\ (exists c,
        c ∈ [u "the matrix"]
        /\ (length_ratio (u "thematrix") c == 90)%Q
        /\ fuzzy_candidate length_ratio (u "thematrix") [u "the matrix"] 90
           = Some c
        /\ fuzzy_stage length_ratio thematrix_ref [matrix_lib]
             [u "the matrix"] 90
           = pick thematrix_ref c [matrix_lib])
  /\ fuzzy_candidate length_ratio (u "thematrix") [u "the matrix"] 91 = None
  /\ fuzzy_stage length_ratio thematrix_ref [matrix_lib] [u "the matrix"] 91
     = Some None.
Proof.
  assert (norm_title thematrix_ref = Some (u "thematrix")) as H1
    by compute_done.
  assert (length_ratio (u "thematrix") (u "the matrix") == 90)%Q as H2
    by reflexivity.
  assert (forall t, t ∈ [u "the matrix"] ->
            (0 <= length_ratio (u "thematrix") t <= 100)%Q) as H3.
  { intros t ->%list_elem_of_singleton. split; vm_compute; discriminate. }
  assert (exists c, c ∈ [u "the matrix"]
                    /\ (length_ratio (u "thematrix") c == 90)%Q) as H4
    by (exists (u "the matrix"); split; [apply list_elem_of_here|exact H2]).
  assert (forall t, t ∈ [u "the matrix"] ->
            (length_ratio (u "thematrix") t <= 90)%Q) as H5.
  { intros t ->%list_elem_of_singleton. vm_compute. discriminate. }
  pose proof (fuzzy_threshold_boundary length_ratio thematrix_ref _
                [matrix_lib] _ 90%Z 90%Q H1 H3 H4 H5) as [H6 _].
  pose proof (fuzzy_threshold_boundary length_ratio thematrix_ref _
                [matrix_lib] _ 91%Z 90%Q H1 H3 H4 H5) as [_ H7].
  exact (conj H1 (conj H2 (conj (H6 (Qeq_refl _)) (H7 (Qeq_refl _))))).
Defined.

(** The empty title at threshold 1. *)
Lemma empty_title_fuzzy_witness :
  norm_title untitled_ref = Some []
  /\ Forall has_title [matrix_lib]
  /\ (forall c, c ∈ [u "the matrix"] -> (exact_ratio [] c == 0)%Q)
  /\ fuzzy_candidate exact_ratio [] [u "the matrix"] 1 = None
  /\ fuzzy_stage exact_ratio untitled_ref [matrix_lib] [u "the matrix"] 1
     = Some None.
Proof.
  assert (norm_title untitled_ref = Some []) as H1 by compute_done.
  assert (Forall has_title [matrix_lib]) as H2 by compute_done.
  assert (forall c, c ∈ [u "the matrix"] -> (exact_ratio [] c == 0)%Q) as H3.
  { intros c ->%list_elem_of_singleton. reflexivity. }
  pose proof (empty_title_fuzzy exact_ratio untitled_ref [matrix_lib]
                [u "the matrix"] 1%Z H1 H2) as [_ H4].
  exact (conj H1 (conj H2 (conj H3 (H4 H3 (Z.le_refl 1))))).
Defined.

(** One record matched, one missing. *)
Lemma match_present_partition_witness :
  Forall has_title [matrix_ref; reloaded_ref]
  /\ Forall has_title [matrix_lib]
  /\ is_Some (match_present exact_ratio [matrix_ref; reloaded_ref]
                [matrix_lib] 90 true)
  /\ match_present exact_ratio [matrix_ref; reloaded_ref] [matrix_lib] 90 true
     = Some ([mark matrix_ref matrix_lib], [reloaded_ref])
  /\ length [mark matrix_ref matrix_lib] + length [reloaded_ref]
     = length [matrix_ref; reloaded_ref]
  /\ [reloaded_ref] `sublist_of` [matrix_ref; reloaded_ref].
Proof.
  assert (Forall has_title [matrix_ref; reloaded_ref]) as H1 by compute_done.
  assert (Forall has_title [matrix_lib]) as H2 by compute_done.
  assert (match_present exact_ratio [matrix_ref; reloaded_ref] [matrix_lib]
            90 true
          = Some ([mark matrix_ref matrix_lib], [reloaded_ref])) as H3
    by compute_done.
  pose proof (match_present_partition exact_ratio
                [matrix_ref; reloaded_ref] [matrix_lib] 90%Z true) as [H4 H5].
  destruct (H4 _ _ H3) as (H6 & H7 & _).
  exact (conj H1 (conj H2 (conj (H5 H1 H2) (conj H3 (conj H6 H7))))).
Defined.

(** ** More about the normaliser *)

Lemma lower_char_idemp c : lower_char (lower_char c) = lower_char c.
Proof.
  destruct (lower_char_cases c) as [E|[Hc E]]; rewrite !E; [done|].
  unfold lower_char. char_cases.
Qed.

Lemma fold_char_idemp c : fold_char (fold_char c) = fold_char c.
Proof.
  unfold fold_char. cbv zeta.
  destruct (is_apostrophe (lower_char c)) eqn:E; [done|].
  by rewrite lower_char_idemp, E.
Qed.

(** The characters [sub_runs] leaves: a space, or a character of the
    input outside the class. *)
Lemma sub_runs_chars cls b t :
  Forall (fun c => c = 32%N \/ (cls c = false /\ c ∈ t)) (sub_runs cls b t).
Proof.
  revert b. induction t as [|c t IH]; intros b; [constructor|]. cbn.
  assert (forall b', Forall (fun d => d = 32%N \/ cls d = false /\ d ∈ c :: t)
                       (sub_runs cls b' t)) as IH'.
  { intros b'. eapply Forall_impl; [apply IH|]. cbn.
    intros d [?|[? ?]]; [by left|right]. split; [done|].
    by apply list_elem_of_further. }
  destruct (cls c) eqn:Ec; [destruct b|]; try apply IH'.
  - constructor; [by left|apply IH'].
  - constructor; [|apply IH']. right. split; [done|apply list_elem_of_here].
Qed.

(** After [sub_runs] no space follows a space, and the result does not
    begin with a space when a run was under way. *)
Lemma sub_runs_single_spaced cls b t :
  cls 32%N = true ->
  (b = true -> forall l, sub_runs cls b t <> 32%N :: l)
  /\ forall l1 l2, sub_runs cls b t <> l1 ++ 32%N :: 32%N :: l2.
Proof.
  intros H32. revert b. induction t as [|c t IH]; intros b.
  - split; [done|]. intros [|? ?] ?; done.
  - cbn. destruct (cls c) eqn:Ec; [destruct b|].
    + apply IH.
    + split; [done|]. intros [|d l1] l2; cbn.
      * intros [= E]. by eapply (proj1 (IH true)).
      * intros [= <- E]. by eapply (proj2 (IH true)).
    + split.
      * intros _ l [= -> _]. congruence.
      * intros [|d l1] l2; cbn.
        -- intros [= -> _]. congruence.
        -- intros [= -> E]. by eapply (proj2 (IH false)).
Qed.

(** [sub_runs] changes nothing in a text whose only characters of the
    class are single spaces. *)
Lemma sub_runs_id cls b t :
  Forall (fun c => cls c = true -> c = 32%N) t ->
  (forall l1 l2, t <> l1 ++ 32%N :: 32%N :: l2) ->
  (b = true -> forall l, t <> 32%N :: l) ->
  sub_runs cls b t = t.
Proof.
  intros Hc. revert b. induction Hc as [|c t Hc _ IH]; intros b Hd Hb;
    [done|].
  cbn. destruct (cls c) eqn:Ec.
  - rewrite (Hc eq_refl) in *. destruct b; [by destruct (Hb eq_refl t)|].
    f_equal. apply IH.
    + intros l1 l2 ->. by apply (Hd (32%N :: l1) l2).
    + intros _ l ->. by apply (Hd [] l).
  - f_equal. apply IH; [|done].
    intros l1 l2 ->. by apply (Hd (c :: l1) l2).
Qed.

Lemma lstrip_suffix t : exists pre, t = pre ++ lstrip t.
Proof.
  induction t as [|c t [pre IH]]; [by exists []|]. cbn.
  destruct (is_space c); [|by exists []].
  exists (c :: pre). cbn. by f_equal.
Qed.

Lemma lstrip_head t c l : lstrip t = c :: l -> is_space c = false.
Proof.
  induction t as [|d t IH]; [done|]. cbn.
  destruct (is_space d) eqn:E; [done|]. by intros [= <- _].
Qed.

Lemma lstrip_fixed t :
  (forall c l, t = c :: l -> is_space c = false) -> lstrip t = t.
Proof. destruct t as [|c t]; [done|]. intros H. cbn. by rewrite (H c t). Qed.

Lemma lstrip_length t : length (lstrip t) <= length t.
Proof.
  destruct (lstrip_suffix t) as [pre E]. rewrite E at 2.
  rewrite length_app. lia.
Qed.

Lemma lstrip_length_eq t : length (lstrip t) = length t -> lstrip t = t.
Proof.
  destruct (lstrip_suffix t) as [pre E]. intros Hl.
  rewrite E in Hl at 2. rewrite length_app in Hl.
  destruct pre; [done|cbn in Hl; lia].
Qed.

(** [strip] returns a segment of its argument that neither begins nor
    ends with whitespace. *)
Lemma strip_segment t :
  exists pre suf, t = pre ++ strip t ++ suf.
Proof.
  unfold strip. destruct (lstrip_suffix t) as [pre E1].
  destruct (lstrip_suffix (reverse (lstrip t))) as [suf E2].
  exists pre, (reverse suf). rewrite E1 at 1. f_equal.
  rewrite <- reverse_app, <- E2. by rewrite reverse_involutive.
Qed.

Lemma strip_no_edge t : no_edge_space (strip t).
Proof.
  unfold no_edge_space, strip. rewrite reverse_involutive.
  set (a := lstrip t). set (b := lstrip (reverse a)).
  assert (lstrip b = b) as Hb.
  { apply lstrip_fixed. intros c l E. by apply (lstrip_head (reverse a) c l). }
  split; [|done].
  apply lstrip_fixed. intros c l E.
  destruct (lstrip_suffix (reverse a)) as [pre Hpre]. fold b in Hpre.
  assert (a = reverse b ++ reverse pre) as Ha
    by (by rewrite <- reverse_app, <- Hpre, reverse_involutive).
  rewrite E in Ha. cbn in Ha.
  by apply (lstrip_head t c (l ++ reverse pre)).
Qed.

Lemma no_edge_space_iff t : no_edge_space t <-> strip t = t.
Proof.
  split; [apply strip_no_edge_space|].
  intros <-. apply strip_no_edge.
Qed.

Lemma no_edge_space_head t c l :
  no_edge_space t -> t = c :: l -> is_space c = false.
Proof. intros [H _] ->. by apply (lstrip_head _ _ _ H). Qed.

Lemma no_edge_space_last t c l :
  no_edge_space t -> t = l ++ [c] -> is_space c = false.
Proof.
  intros [_ H] ->. rewrite reverse_snoc in H.
  by apply (lstrip_head _ _ _ H).
Qed.

Lemma tidy_normalize_title t : tidy (normalize_title t).
Proof.
  rewrite normalize_title_sep.
  pose proof (sub_runs_chars is_sep false (fold_char <$> strip t)) as Hc.
  split; [|split].
  - eapply Forall_impl; [exact Hc|]. cbn. intros c [->|[Hs _]]; [done|].
    by rewrite Hs.
  - eapply Forall_impl; [exact Hc|]. cbn. intros c [->|[_ Hin]]; [done|].
    apply list_elem_of_fmap in Hin as (d & -> & _). apply fold_char_idemp.
  - by apply sub_runs_single_spaced.
Qed.

Lemma tidy_segment pre r suf : tidy (pre ++ r ++ suf) -> tidy r.
Proof.
  intros (H1 & H2 & H3). split; [|split].
  - by apply Forall_app in H1 as [_ [? _]%Forall_app].
  - by apply Forall_app in H2 as [_ [? _]%Forall_app].
  - intros l1 l2 ->. apply (H3 (pre ++ l1) (l2 ++ suf)).
    by rewrite <- !app_assoc.
Qed.

Lemma tidy_strip r : tidy r -> tidy (strip r).
Proof.
  destruct (strip_segment r) as (pre & suf & E). intros H.
  rewrite E in H. by eapply tidy_segment.
Qed.

(** On a tidy text [normalize_title] only trims. *)
Lemma normalize_title_tidy r : tidy r -> normalize_title r = strip r.
Proof.
  intros (H1 & H2 & H3)%tidy_strip. rewrite normalize_title_sep.
  assert (fold_char <$> strip r = strip r) as ->.
  { clear H1 H3. induction H2 as [|c l Hc _ IH]; [done|].
    cbn. by rewrite Hc, IH. }
  by apply sub_runs_id.
Qed.

Lemma sub_runs_last cls t : forall b c,
  last t = Some c ->
  (cls c = false -> last (sub_runs cls b t) = Some c)
  /\ (cls c = true ->
      last (sub_runs cls b t) = Some 32%N
      \/ (b = true /\ sub_runs cls b t = [])).
Proof.
  induction t as [|d t IH]; intros b c; [done|].
  rewrite last_cons. destruct (last t) as [e|] eqn:Ht.
  - intros [= ->]. cbn.
    destruct (IH true c eq_refl) as [T1 T2].
    destruct (IH false c eq_refl) as [F1 F2].
    destruct (cls d); [destruct b|];
      rewrite ?last_cons; split; intros Hc.
    + by apply T1.
    + by apply T2.
    + by rewrite (T1 Hc).
    + left. by destruct (T2 Hc) as [->|[_ ->]].
    + by rewrite (F1 Hc).
    + left. by destruct (F2 Hc) as [->|[? _]].
  - intros [= ->]. apply last_None in Ht as ->. cbn.
    destruct (cls c) eqn:Ec; [destruct b|]; split; intros; try done; auto.
Qed.

(** The last three stages of [normalize_title], on any text: what they
    return has no character of the stripped punctuation class, no
    whitespace other than the space, no apostrophe other than the straight
    one. *)
Lemma sub_stages_chars s :
  Forall (fun c =>
            is_punct c = false
            /\ (is_space c = true -> c = 32%N)
            /\ (is_apostrophe c = true -> c = 39%N))
    (sub_runs is_space false (sub_runs is_punct false (sub_apostrophe s))).
Proof.
  assert (is_punct 32%N = false
          /\ (is_space 32%N = true -> 32%N = 32%N)
          /\ (is_apostrophe 32%N = true -> 32%N = 39%N)) as H32
    by (repeat split; discriminate).
  eapply Forall_impl; [apply sub_runs_chars|]. cbn.
  intros c [->|[Hw Hin]]; [exact H32|].
  pose proof (sub_runs_chars is_punct false (sub_apostrophe s)) as Hp.
  rewrite Forall_forall in Hp.
  destruct (Hp c Hin) as [->|[Hpc Hin']]; [exact H32|].
  split; [done|]. split; [by rewrite Hw|].
  unfold sub_apostrophe in Hin'.
  apply list_elem_of_fmap in Hin' as (d & -> & _).
  destruct (is_apostrophe d) eqn:Ed; [done|]. by rewrite Ed.
Qed.

(** X1: a normalised title holds no character of the stripped
    punctuation class, no whitespace other than the space, no apostrophe
    other than the straight one, and no two spaces in a row. *)
Theorem normalize_title_shape t :
  Forall (fun c =>
            is_punct c = false
            /\ (is_space c = true -> c = 32%N)
            /\ (is_apostrophe c = true -> c = 39%N)) (normalize_title t)
  /\ forall l1 l2, normalize_title t <> l1 ++ 32%N :: 32%N :: l2.
Proof.
  unfold normalize_title. cbv zeta. split; [apply sub_stages_chars|].
  by apply sub_runs_single_spaced.
Qed.

Lemma lower_char_in_range c :
  in_lower_range c = true -> in_lower_range (lower_char c) = true.
Proof.
  destruct (lower_char_cases c) as [->|[Hc ->]]; [done|]. intros _.
  unfold in_lower_range. apply orb_true_iff. left. apply N.ltb_lt. lia.
Qed.

(** [normalize_title] stays within the code points on which [lower] is
    [str.lower]. *)
Lemma normalize_title_in_range t :
  Forall (fun c => in_lower_range c = true) t ->
  Forall (fun c => in_lower_range c = true) (normalize_title t).
Proof.
  intros Ht. unfold normalize_title. cbv zeta.
  assert (Forall (fun c => in_lower_range c = true) (strip (lower t))) as Hs.
  { assert (Forall (fun c => in_lower_range c = true) (lower t)) as Hl.
    { unfold lower. apply Forall_fmap. eapply Forall_impl; [exact Ht|].
      intros c. apply lower_char_in_range. }
    destruct (strip_segment (lower t)) as (pre & suf & E). rewrite E in Hl.
    by apply Forall_app in Hl as [_ [? _]%Forall_app]. }
  rewrite Forall_forall in Hs.
  eapply Forall_impl; [apply sub_runs_chars|]. cbn.
  intros c [->|[_ Hin]]; [done|].
  pose proof (sub_runs_chars is_punct false
                (sub_apostrophe (strip (lower t)))) as Hp.
  rewrite Forall_forall in Hp. destruct (Hp c Hin) as [->|[_ Hin']]; [done|].
  unfold sub_apostrophe in Hin'.
  apply list_elem_of_fmap in Hin' as (d & -> & Hd).
  destruct (is_apostrophe d); [done|]. by apply Hs.
Qed.

(** X2: for a title of Basic Latin, Latin-1 and apostrophe characters,
    the normal form is again made of such characters, a second
    application of [normalize_title] only trims the result of the first,
    and the result of the second is a fixed point. *)
Theorem normalize_title_twice t :
  Forall (fun c => in_lower_range c = true) t ->
  Forall (fun c => in_lower_range c = true) (normalize_title t)
  /\ normalize_title (normalize_title t) = strip (normalize_title t)
  /\ normalize_title (normalize_title (normalize_title t))
     = normalize_title (normalize_title t).
Proof.
  intros Hr. split; [by apply normalize_title_in_range|].
  pose proof (tidy_normalize_title t) as Ht.
  rewrite (normalize_title_tidy _ Ht). split; [done|].
  rewrite (normalize_title_tidy _ (tidy_strip _ Ht)).
  apply strip_no_edge_space, strip_no_edge.
Qed.

(** X3: for a title of Basic Latin, Latin-1 and apostrophe characters,
    [normalize_title] is idempotent at the title exactly when the trimmed
    title neither begins nor ends with a character of the stripped
    punctuation class. *)
Theorem normalize_title_idempotent_iff t :
  Forall (fun c => in_lower_range c = true) t ->
  normalize_title (normalize_title t) = normalize_title t
  <-> (forall c l, strip t = c :: l -> is_punct c = false)
      /\ (forall c l, strip t = l ++ [c] -> is_punct c = false).
Proof.
  intros _.
  rewrite (normalize_title_tidy _ (tidy_normalize_title t)).
  rewrite <- no_edge_space_iff, normalize_title_sep.
  pose proof (strip_no_edge t) as Hs.
  set (s := strip t) in *. set (r := sub_runs is_sep false (fold_char <$> s)).
  assert (forall c l, s = c :: l ->
            exists l', r = (if is_punct c then 32%N else fold_char c) :: l')
    as Hhead.
  { intros c l E. unfold r. rewrite E. cbn. rewrite fold_char_sep.
    unfold is_sep. rewrite (no_edge_space_head s c l Hs E), orb_false_r.
    destruct (is_punct c); by eexists. }
  assert (forall c l, s = l ++ [c] ->
            last r = Some (if is_punct c then 32%N else fold_char c))
    as Hlast.
  { intros c l E.
    assert (last (fold_char <$> s) = Some (fold_char c)) as Hl
      by (rewrite E, fmap_app; apply last_snoc).
    destruct (sub_runs_last is_sep (fold_char <$> s) false _ Hl) as [H1 H2].
    rewrite fold_char_sep in H1, H2. unfold is_sep in H1, H2.
    rewrite (no_edge_space_last s c l Hs E), orb_false_r in H1, H2.
    destruct (is_punct c); [|by apply H1].
    by destruct (H2 eq_refl) as [?|[? _]]. }
  split.
  - intros Hr. split.
    + intros c l E. destruct (Hhead c l E) as [l' Hl'].
      destruct (is_punct c); [|done].
      by pose proof (no_edge_space_head r _ _ Hr Hl').
    + intros c l E. pose proof (Hlast c l E) as Hl.
      destruct (is_punct c); [|done].
      apply last_Some in Hl as [l' Hl'].
      by pose proof (no_edge_space_last r _ _ Hr Hl').
  - intros [H1 H2]. apply no_edge_space_iff.
    apply strip_no_edge_space. split.
    + apply lstrip_fixed. intros c l E.
      destruct s as [|d s'] eqn:Es; [by unfold r in E|].
      destruct (Hhead d s' eq_refl) as [l' Hl'].
      rewrite (H1 d s' eq_refl) in Hl'. rewrite Hl' in E.
      injection E as <- _. rewrite fold_char_space.
      by apply (no_edge_space_head (d :: s') d s' Hs).
    + apply lstrip_fixed. intros c l E.
      assert (last r = Some c) as Hl.
      { apply (f_equal reverse) in E. rewrite reverse_involutive in E.
        rewrite E, reverse_cons. apply last_snoc. }
      destruct (decide (s = [])) as [Es|Hne];
        [unfold r in Hl; by rewrite Es in Hl|].
      destruct (exists_last Hne) as (l0 & d & Ed).
      rewrite (Hlast d l0 Ed), (H2 d l0 Ed) in Hl. injection Hl as <-.
      rewrite fold_char_space.
      by apply (no_edge_space_last s d l0 Hs).
Qed.

(** ** More about the indexes *)

Lemma norm_title_None it :
  norm_title it = None <-> forall t, it !! "title" <> Some (VStr t).
Proof.
  unfold norm_title. destruct (it !! "title") as [[|t|z]|]; split;
    intros H; try done; try (intros ?; discriminate).
  by destruct (H t).
Qed.

Lemma id_key_inj key1 key2 v1 v2 :
  key1 ∈ id_keys -> key2 ∈ id_keys ->
  id_key key1 v1 = id_key key2 v2 -> key1 = key2 /\ format v1 = format v2.
Proof.
  intros H1 H2 E. pose proof (id_key_inj_key _ _ _ _ H1 H2 E) as <-.
  split; [done|]. unfold id_key in E. by do 2 apply app_inv_head in E.
Qed.

(** X4: looking up in [index_by_ids] an identifier that a library item
    carries finds a library item that carries, under the same key, an
    identifier printed the same way; and every entry of the index is such
    an item under such a key. *)
Theorem index_by_ids_round_trip (items : list pydict) :
  (forall it key,
     it ∈ items -> key ∈ id_keys -> truthy (get it key) = true ->
     exists r,
       index_by_ids items !! id_key key (get it key) = Some r
       /\ r ∈ items /\ truthy (get r key) = true
       /\ format (get r key) = format (get it key))
  /\ (forall key v r,
        key ∈ id_keys -> index_by_ids items !! id_key key v = Some r ->
        r ∈ items /\ truthy (get r key) = true
        /\ format (get r key) = format v).
Proof.
  assert (forall key v r,
            key ∈ id_keys -> index_by_ids items !! id_key key v = Some r ->
            r ∈ items /\ truthy (get r key) = true
            /\ format (get r key) = format v) as Hsound.
  { intros key v r Hkey Hr.
    rewrite index_by_ids_lookup in Hr.
    apply (last_filter_Some (fun it => id_key key v ∈ item_keys it))
      in Hr as [Hin HK].
    apply elem_of_item_keys in HK as (key' & Hkey' & Ht & E).
    apply id_key_inj in E as [<- E]; done. }
  split; [|done].
  intros it key Hin Hkey Ht.
  destruct (index_by_ids items !! id_key key (get it key)) as [r|] eqn:Hr.
  - exists r. split; [done|]. by apply Hsound.
  - rewrite index_by_ids_lookup in Hr. apply last_None in Hr.
    assert (it ∈ filter (fun it' => id_key key (get it key) ∈ item_keys it')
                   items) as Hf.
    { apply list_elem_of_filter. split; [|done].
      apply elem_of_item_keys. by exists key. }
    rewrite Hr in Hf. by apply elem_of_nil in Hf.
Qed.

Lemma last_filter_split {A} (P : A -> Prop) `{!forall x, Decision (P x)}
    (l : list A) r :
  last (filter P l) = Some r ->
  exists la lb, l = la ++ r :: lb /\ P r /\ Forall (fun x => ~ P x) lb.
Proof.
  induction l as [|x l IH] using rev_ind; [done|].
  rewrite filter_app, filter_cons, filter_nil.
  destruct (decide (P x)) as [Hx|Hx].
  - rewrite last_snoc. intros [= <-]. by exists l, [].
  - rewrite app_nil_r. intros (la & lb & -> & Hr & Hlb)%IH.
    exists la, (lb ++ [x]). rewrite <- app_assoc. split; [done|].
    split; [done|]. apply Forall_app. split; [done|]. by constructor.
Qed.

(** X5: in the index that [build_title_year_index] returns, a library
    item is found under its own normalised title and year when no later
    item has the same title and year; otherwise the entry under them is
    the last of the later items that have them.  Every entry is a library
    item stored under its own key. *)
Theorem title_year_index_round_trip (l1 l2 : list pydict) it d :
  build_title_year_index (l1 ++ it :: l2) = Some d ->
  (exists k r,
     ty_key it = Some k /\ d !! k = Some r /\ ty_key r = Some k
     /\ ((r = it /\ Forall (fun x => ty_key x <> Some k) l2)
         \/ exists l2a l2b,
              l2 = l2a ++ r :: l2b
              /\ Forall (fun x => ty_key x <> Some k) l2b))
  /\ (forall k r, d !! k = Some r ->
        r ∈ l1 ++ it :: l2 /\ ty_key r = Some k).
Proof.
  intros Hd. split; [|intros k r; by apply ty_index_elem].
  pose proof (build_title_year_index_has_title _ _ Hd) as Hall.
  apply Forall_app in Hall as [_ Hall]. apply Forall_cons in Hall as [[t Ht] _].
  set (k := (t, or_empty (get it "year"))).
  assert (ty_key it = Some k) as Hk by (unfold ty_key; by rewrite Ht).
  exists k. rewrite (build_title_year_index_lookup _ _ _ Hd).
  rewrite filter_app, filter_cons, decide_True by done.
  destruct (last (filter (fun it' => ty_key it' = Some k) l2)) as [r|] eqn:Hl.
  - destruct (last_filter_split (fun it' => ty_key it' = Some k) l2 r Hl)
      as (l2a & l2b & E & Hr & Hb).
    exists r. split; [done|]. split.
    + rewrite last_app, last_cons, Hl. done.
    + split; [done|]. right. by exists l2a, l2b.
  - apply last_None in Hl. exists it. split; [done|]. split.
    + by rewrite Hl, last_snoc.
    + split; [done|]. left. split; [done|].
      apply Forall_forall. intros x Hx Hkx.
      assert (x ∈ filter (fun it' => ty_key it' = Some k) l2) as Hf
        by (by apply list_elem_of_filter).
      rewrite Hl in Hf. by apply elem_of_nil in Hf.
Qed.

(** X6: [build_title_year_index] raises exactly when some item has no
    [title] key or a title that is not a [str]; an empty library gives the
    empty index. *)
Theorem build_title_year_index_error (items : list pydict) :
  (build_title_year_index items = None
   <-> exists it, it ∈ items /\ forall t, it !! "title" <> Some (VStr t))
  /\ build_title_year_index [] = Some ∅.
Proof.
  split; [|done]. split.
  - intros Hn.
    destruct (decide (Forall has_title items)) as [Hall|Hno].
    + apply build_title_year_index_Some in Hall as [d Hd]. congruence.
    + apply not_Forall_Exists in Hno; [|apply _].
      apply Exists_exists in Hno as (it & Hin & Hit).
      exists it. split; [done|]. apply norm_title_None.
      cbn in Hit. unfold has_title in Hit.
      destruct (norm_title it); [|done]. by destruct Hit.
  - intros (it & Hin & Hit).
    destruct (build_title_year_index items) as [d|] eqn:Hd; [|done].
    apply build_title_year_index_has_title in Hd.
    rewrite Forall_forall in Hd. destruct (Hd it Hin) as [t Ht].
    apply norm_title_None in Hit. congruence.
Qed.

(** ** More about the reconciliation *)

Section MatchingProperties.

Variable WRatio : pystr -> pystr -> Q.

Lemma extractOne_from_sound q choices : forall key cutoff result c sc k,
  extractOne_from WRatio q key choices cutoff result = Some (c, sc, k) ->
  result = Some (c, sc, k) \/ (c ∈ choices /\ sc = WRatio q c).
Proof.
  induction choices as [|choice rest IH]; intros key cutoff result c sc k;
    [by left|].
  cbn [extractOne_from]. cbv zeta.
  set (take := Qle_bool cutoff (WRatio q choice) && _).
  assert ((if take then Some (choice, WRatio q choice, key) else result)
          = Some (c, sc, k) ->
          result = Some (c, sc, k)
          \/ (c ∈ choice :: rest /\ sc = WRatio q c)) as Hnow.
  { destruct take; [|by left]. intros [= <- <- <-]. right.
    split; [apply list_elem_of_here|done]. }
  destruct (Qeq_bool (WRatio q choice) 100); [done|].
  intros [H|[H1 H2]]%IH; [by apply Hnow|right].
  split; [by apply list_elem_of_further|done].
Qed.

Lemma fuzzy_candidate_Some st titles th c :
  fuzzy_candidate WRatio st titles th = Some c ->
  c ∈ titles /\ (inject_Z th <= WRatio st c)%Q.
Proof.
  unfold fuzzy_candidate, extractOne.
  destruct (extractOne_from _ _ _ _ _ _) as [[[c' sc] k]|] eqn:E; [|done].
  apply extractOne_from_sound in E as [?|[Hin ->]]; [done|].
  destruct (Qle_bool _ _) eqn:Hq; [|done]. intros [= <-].
  split; [done|]. by apply Qle_bool_iff.
Qed.

Lemma index_by_ids_nil : index_by_ids [] = ∅.
Proof. done. Qed.

Lemma id_stage_empty keys s : id_stage keys s ∅ = None.
Proof.
  induction keys as [|key keys IH]; [done|]. cbn.
  rewrite lookup_empty. by destruct (truthy _).
Qed.

Lemma or_empty_eq v v' :
  truthy v = true -> or_empty v' = or_empty v -> v' = v.
Proof.
  unfold or_empty. intros Hv. rewrite Hv.
  destruct (truthy v') eqn:Hv'; [done|]. intros <-. done.
Qed.

(** The ways a record can be matched when the identifier stage finds
    nothing. *)
Lemma match_one_no_id items idx ty titles th (pid : bool) s r :
  (if pid then id_stage id_keys s idx else None) = None ->
  match_one WRatio items idx ty titles th pid s = Some (Some r) ->
  exact_stage s ty = Some (Some r)
  \/ fuzzy_stage WRatio s items titles th = Some (Some r).
Proof.
  intros Hid. unfold match_one. cbv zeta. rewrite Hid. cbn.
  destruct (exact_stage s ty) as [f1|]; [|done]. cbn.
  destruct (found_true f1); [by intros [= ->]; left|].
  destruct (fuzzy_stage WRatio s items titles th) as [[p|]|]; cbn;
    [intros [= ->]; by right|intros [= ->]; by left|done].
Qed.

Lemma find_match_unfold items th (pid : bool) s ty titles :
  build_title_year_index items = Some ty ->
  mapM norm_title items = Some titles ->
  find_match WRatio items th pid s
  = match_one WRatio items (if pid then index_by_ids items else ∅)
      ty titles th pid s.
Proof. intros Hty Htl. unfold find_match. cbv zeta. by rewrite Hty, Htl. Qed.

Lemma library_indexes items :
  Forall has_title items ->
  exists ty titles,
    build_title_year_index items = Some ty
    /\ mapM norm_title items = Some titles.
Proof.
  intros Hit. destruct (build_title_year_index_Some items Hit) as [ty Hty].
  destruct (mapM_is_Some_2 norm_title items) as [titles Htl]; [done|].
  by exists ty, titles.
Qed.

Lemma find_match_library items th pid s f :
  find_match WRatio items th pid s = Some f -> Forall has_title items.
Proof.
  unfold find_match. cbv zeta.
  destruct (build_title_year_index items) as [ty|] eqn:Hty; [|done].
  intros _. by eapply build_title_year_index_has_title.
Qed.

(** Every record of the source has a value of [found] when
    [match_present] returns. *)
Lemma match_present_find_match src items th pid present missing s :
  match_present WRatio src items th pid = Some (present, missing) ->
  s ∈ src -> is_Some (find_match WRatio items th pid s).
Proof.
  intros (matched & Hil & Hps & Hms)%match_present_spec Hs.
  destruct (proj1 (interleave_elem_of _ _ _ s Hil) Hs) as [Hin|Hin].
  - apply list_elem_of_lookup in Hin as [i Hi].
    destruct (Forall2_lookup_l _ _ _ _ _ Hps Hi) as (e & _ & r & Hr & _).
    by eexists.
  - rewrite Forall_forall in Hms. destruct (Hms _ Hin) as (f & Hf & _).
    by eexists.
Qed.

(** X7: [match_present] raises on every source, the empty one included,
    when some library item has no [str] title, since the title index is
    built before the loop; on a library of titled items the empty source
    gives two empty lists. *)
Theorem library_title_required (items : list pydict) th pid :
  ((exists it, it ∈ items /\ forall t, it !! "title" <> Some (VStr t)) ->
   forall src, match_present WRatio src items th pid = None)
  /\ (Forall has_title items ->
      match_present WRatio [] items th pid = Some ([], [])).
Proof.
  split.
  - intros (it & Hin & Hit) src. unfold match_present. cbv zeta.
    destruct (build_title_year_index items) as [ty|] eqn:Hty; [|done].
    apply build_title_year_index_has_title in Hty.
    rewrite Forall_forall in Hty. destruct (Hty it Hin) as [t Ht].
    apply norm_title_None in Hit. congruence.
  - intros Hit. unfold match_present. cbv zeta.
    destruct (library_indexes items Hit) as (ty & titles & -> & ->). done.
Qed.

(** X8: against an empty library every record of the source is missing,
    in the order of the source, provided each has a [str] title; a record
    without one makes the call raise. *)
Theorem empty_library_all_missing (src : list pydict) th pid :
  (Forall has_title src ->
   match_present WRatio src [] th pid = Some ([], src))
  /\ (~ Forall has_title src ->
      match_present WRatio src [] th pid = None).
Proof.
  assert (forall s, match_one WRatio [] (if pid then index_by_ids [] else ∅)
                      ∅ [] th pid s
                    = (_ ← norm_title s; Some None)) as Hone.
  { intros s. unfold match_one. cbv zeta.
    assert ((if pid then id_stage id_keys s (if pid then index_by_ids []
                                              else ∅) else None) = None)
      as -> by (destruct pid; [apply id_stage_empty|done]).
    cbn. unfold exact_stage, fuzzy_stage.
    destruct (norm_title s); [|done]. cbn. by rewrite lookup_empty. }
  unfold match_present. cbv zeta. cbn [build_title_year_index foldl mapM].
  cbn [mbind option_bind mret option_ret].
  assert (forall p0 m0,
    foldl (fun acc s =>
             _ ← acc;
             found ← match_one WRatio [] (if pid then index_by_ids [] else ∅)
                       ∅ [] th pid s;
             classify acc s found) (Some (p0, m0)) src
    = if decide (Forall has_title src) then Some (p0, m0 ++ src) else None)
    as Hloop.
  { induction src as [|s src IH]; intros p0 m0.
    - cbn. rewrite decide_True by constructor. by rewrite app_nil_r.
    - cbn [foldl]. cbn [mbind option_bind]. rewrite Hone.
      destruct (norm_title s) as [t|] eqn:Ht; cbn.
      + rewrite IH. destruct (decide (Forall has_title src)) as [H|H].
        * rewrite decide_True by (constructor; [by exists t|done]).
          by rewrite <- app_assoc.
        * rewrite decide_False; [done|]. by intros [_ ?]%Forall_cons.
      + rewrite match_loop_None. rewrite decide_False; [done|].
        intros [[t' Ht'] _]%Forall_cons. congruence. }
  split; intros H.
  - change (build_title_year_index []) with (Some (∅ : gmap (pystr * pyval) pydict)).
    cbn. rewrite Hloop. by rewrite decide_True.
  - change (build_title_year_index []) with (Some (∅ : gmap (pystr * pyval) pydict)).
    cbn. rewrite Hloop. by rewrite decide_False.
Qed.

Section Shift.

Variables (items : list pydict) (idx : gmap pystr pydict)
  (ty : gmap (pystr * pyval) pydict) (titles : list pystr)
  (th : Z) (pid : bool).

Let step := fun (acc : option (list pydict * list pydict)) (s : pydict) =>
  _ ← acc;
  found ← match_one WRatio items idx ty titles th pid s;
  classify acc s found.

(** The loop started from two lists appends to them what it appends to
    empty lists. *)
Lemma match_loop_shift src : forall p0 m0,
  foldl step (Some (p0, m0)) src
  = '(p, m) ← foldl step (Some ([], [])) src; Some (p0 ++ p, m0 ++ m).
Proof.
  induction src as [|s src IH]; intros p0 m0.
  - cbn. by rewrite !app_nil_r.
  - cbn [foldl]. unfold step at 2 4. cbn.
    destruct (match_one WRatio items idx ty titles th pid s) as [f|]; cbn;
      [|unfold step; by rewrite !match_loop_None].
    assert (forall e, foldl step (Some (p0 ++ [e], m0)) src
              = '(p, m) ← foldl step (Some ([e], [])) src;
                Some (p0 ++ p, m0 ++ m)) as Hp.
    { intros e. rewrite (IH (p0 ++ [e]) m0), (IH [e] []).
      destruct (foldl step (Some ([], [])) src) as [[p m]|]; [|done].
      cbn. by rewrite <- app_assoc. }
    assert (foldl step (Some (p0, m0 ++ [s])) src
              = '(p, m) ← foldl step (Some ([], [s])) src;
                Some (p0 ++ p, m0 ++ m)) as Hm.
    { rewrite (IH p0 (m0 ++ [s])), (IH [] [s]).
      destruct (foldl step (Some ([], [])) src) as [[p m]|]; [|done].
      cbn. by rewrite <- app_assoc. }
    destruct f as [r|]; [destruct (found_true (Some r))|]; done.
Qed.

End Shift.

(** X9: [match_present] on a concatenated source returns the
    concatenation of what it returns on the parts, and raises when it
    raises on one of them: a record is classified on its own, whatever
    else the source holds. *)
Theorem match_present_app (src1 src2 items : list pydict) th pid :
  match_present WRatio (src1 ++ src2) items th pid
  = '(p1, m1) ← match_present WRatio src1 items th pid;
    '(p2, m2) ← match_present WRatio src2 items th pid;
    Some (p1 ++ p2, m1 ++ m2).
Proof.
  unfold match_present. cbv zeta.
  destruct (build_title_year_index items) as [ty|]; [|done]. cbn.
  destruct (mapM norm_title items) as [titles|]; [|done]. cbn.
  rewrite foldl_app.
  destruct (foldl _ (Some ([], [])) src1) as [[p1 m1]|]; cbn;
    [|by rewrite match_loop_None].
  apply match_loop_shift.
Qed.

(** X10: with [prefer_ids], a reference one of whose identifiers is in
    the index of a library of titled items is matched to the item the
    first such identifier resolves to, an item carrying that identifier
    under the same key; its title and year, the threshold and the scorer
    play no part, and the reference needs no title. *)
Theorem identifier_match (items : list pydict) th s r :
  Forall has_title items ->
  id_stage id_keys s (index_by_ids items) = Some r ->
  find_match WRatio items th true s = Some (Some r)
  /\ r ∈ items
  /\ exists key,
       key ∈ id_keys /\ truthy (get s key) = true
       /\ truthy (get r key) = true
       /\ format (get r key) = format (get s key).
Proof.
  intros Hit Hid.
  destruct (library_indexes items Hit) as (ty & titles & Hty & Htl).
  pose proof Hid as (key & Hkey & Ht & Hr)%id_stage_Some.
  pose proof Hr as Hr'. rewrite index_by_ids_lookup in Hr'.
  apply (last_filter_Some
           (fun it => id_key key (get s key) ∈ item_keys it)) in Hr'
    as [Hin HK].
  apply elem_of_item_keys in HK as (key' & Hkey' & Ht' & E).
  apply id_key_inj in E as [<- E]; [|done..].
  rewrite Forall_forall in Hit.
  split; [|split; [done|by exists key]].
  rewrite (find_match_unfold _ _ _ _ _ _ Hty Htl).
  unfold match_one. cbv zeta. rewrite Hid.
  rewrite (has_title_found_true r (Hit _ Hin)). cbn [mbind option_bind].
  by rewrite (has_title_found_true r (Hit _ Hin)).
Qed.

(** X11: a reference without a [str] title that no identifier resolves
    makes [match_present] raise, wherever it stands in the source. *)
Theorem untitled_reference_raises (src items : list pydict) th pid s :
  s ∈ src ->
  (forall t, s !! "title" <> Some (VStr t)) ->
  pid = false \/ id_stage id_keys s (index_by_ids items) = None ->
  match_present WRatio src items th pid = None.
Proof.
  intros Hs Ht%norm_title_None Hid.
  destruct (match_present WRatio src items th pid) as [[p m]|] eqn:E;
    [|done].
  destruct (match_present_find_match _ _ _ _ _ _ s E Hs) as [f Hf].
  pose proof (find_match_library _ _ _ _ _ Hf) as Hit.
  destruct (library_indexes items Hit) as (ty & titles & Hty & Htl).
  rewrite (find_match_unfold _ _ _ _ _ _ Hty Htl) in Hf.
  unfold match_one in Hf. cbv zeta in Hf.
  assert ((if pid then id_stage id_keys s (if pid then index_by_ids items
                                            else ∅) else None) = None)
    as Hnone by (destruct Hid as [->|Hid]; [done|by destruct pid]).
  rewrite Hnone in Hf. cbn in Hf. unfold exact_stage in Hf.
  by rewrite Ht in Hf.
Qed.

(** X12: a match that the identifier stage did not make is a library
    item whose normalised title is that of the reference or scores at
    least the threshold against it, and whose year is the year of the
    reference when the reference has one. *)
Theorem title_match_sound (items : list pydict) th pid s r :
  find_match WRatio items th pid s = Some (Some r) ->
  pid = false \/ id_stage id_keys s (index_by_ids items) = None ->
  r ∈ items
  /\ (exists st t,
        norm_title s = Some st /\ norm_title r = Some t
        /\ (st = t \/ (inject_Z th <= WRatio st t)%Q))
  /\ (truthy (get s "year") = true -> get r "year" = get s "year").
Proof.
  intros Hf Hid. pose proof (find_match_elem _ _ _ _ _ _ Hf) as [Hin _].
  split; [done|].
  pose proof (find_match_library _ _ _ _ _ Hf) as Hit.
  destruct (library_indexes items Hit) as (ty & titles & Hty & Htl).
  rewrite (find_match_unfold _ _ _ _ _ _ Hty Htl) in Hf.
  apply match_one_no_id in Hf;
    [|destruct Hid as [->|Hid]; [done|by destruct pid]].
  destruct Hf as [Hex|Hfz].
  - unfold exact_stage in Hex.
    destruct (norm_title s) as [st|] eqn:Hst; [|done]. cbn in Hex.
    injection Hex as Hr.
    destruct (ty_index_elem _ _ _ _ Hty Hr) as [_ Hk].
    unfold ty_key in Hk. destruct (norm_title r) as [t|]; [|done].
    cbn in Hk. injection Hk as -> Hy. split.
    + exists st, st. repeat split. by left.
    + intros Hs. by apply or_empty_eq.
  - unfold fuzzy_stage in Hfz.
    destruct (norm_title s) as [st|] eqn:Hst; [|done]. cbn in Hfz.
    destruct (fuzzy_candidate WRatio st titles th) as [c|] eqn:Hc; [|done].
    apply fuzzy_candidate_Some in Hc as [_ Hc].
    apply pick_Some in Hfz as (_ & Hrt & Hy). split.
    + exists st, c. repeat split; [done|by right].
    + intros Hs. unfold year_ok in Hy. rewrite Hs in Hy. cbn in Hy.
      rewrite orb_false_r in Hy. by apply bool_decide_eq_true in Hy.
Qed.

Lemma fuzzy_stage_antitone s items titles th th' r :
  (th <= th')%Z ->
  fuzzy_stage WRatio s items titles th' = Some (Some r) ->
  fuzzy_stage WRatio s items titles th = Some (Some r).
Proof.
  intros Hth. unfold fuzzy_stage, fuzzy_candidate.
  destruct (norm_title s) as [st|]; [|done]. cbn.
  destruct (extractOne WRatio st titles) as [[[c sc] k]|]; [|done].
  destruct (Qle_bool (inject_Z th') sc) eqn:E'; [|done].
  apply Qle_bool_iff in E'.
  assert (Qle_bool (inject_Z th) sc = true) as ->; [|done].
  apply Qle_bool_iff. rewrite Zle_Qle in Hth. lra.
Qed.

Lemma exact_stage_found_true items ty s r :
  build_title_year_index items = Some ty ->
  exact_stage s ty = Some (Some r) -> found_true (Some r) = true.
Proof.
  intros Hty. unfold exact_stage. destruct (norm_title s); [|done]. cbn.
  intros [= Hr]. destruct (ty_index_elem _ _ _ _ Hty Hr) as [_ Hk].
  apply has_title_found_true. unfold has_title, ty_key in *.
  by destruct (norm_title r).
Qed.

(** X13: lowering the threshold keeps every match: a reference matched
    to a library item at one threshold is matched to the same item at
    every lower threshold. *)
Theorem threshold_antitone (items : list pydict) th th' pid s r :
  (th <= th')%Z ->
  find_match WRatio items th' pid s = Some (Some r) ->
  find_match WRatio items th pid s = Some (Some r).
Proof.
  intros Hth Hf. pose proof (find_match_library _ _ _ _ _ Hf) as Hit.
  destruct (library_indexes items Hit) as (ty & titles & Hty & Htl).
  rewrite (find_match_unfold items th' pid s ty titles Hty Htl) in Hf.
  rewrite (find_match_unfold items th pid s ty titles Hty Htl).
  revert Hf. unfold match_one. cbv zeta.
  set (f0 := if pid then id_stage id_keys s _ else None).
  destruct (found_true f0) eqn:Hf0; cbn.
  - by rewrite Hf0.
  - destruct (exact_stage s ty) as [f1|] eqn:Hex; [|done]. cbn.
    destruct (found_true f1) eqn:Hf1; [done|].
    destruct (fuzzy_stage WRatio s items titles th') as [[p|]|] eqn:Hfz;
      cbn; [| |done].
    + intros [= ->].
      by rewrite (fuzzy_stage_antitone _ _ _ _ _ _ Hth Hfz).
    + intros [= ->].
      by rewrite (exact_stage_found_true _ _ _ _ Hty Hex) in Hf1.
Qed.

Lemma pick_year s s' c items :
  get s "year" = get s' "year" -> pick s c items = pick s' c items.
Proof.
  intros Hy. induction items as [|p items IH]; [done|]. cbn.
  destruct (norm_title p); [|done]. cbn.
  unfold year_ok. by rewrite Hy, IH.
Qed.

(** X14: without [prefer_ids] only the title and the year of a reference
    decide its match: two references with the same title value and the
    same year get the same result, whatever their other fields. *)
Theorem title_and_year_decide (items : list pydict) th s s' :
  s !! "title" = s' !! "title" ->
  get s "year" = get s' "year" ->
  find_match WRatio items th false s = find_match WRatio items th false s'.
Proof.
  intros Ht Hy. unfold find_match. cbv zeta.
  destruct (build_title_year_index items) as [ty|]; [|done]. cbn.
  destruct (mapM norm_title items) as [titles|]; [|done]. cbn.
  assert (norm_title s = norm_title s') as Hn
    by (unfold norm_title; by rewrite Ht).
  unfold match_one, exact_stage, fuzzy_stage. cbv zeta.
  rewrite Hn, Hy. destruct (norm_title s') as [st|]; [|done]. cbn.
  destruct (found_true _); [done|].
  destruct (fuzzy_candidate WRatio st titles th) as [c|]; [|done].
  by rewrite (pick_year s s' c items Hy).
Qed.

Lemma index_by_ids_no_ids (items : list pydict) :
  (forall it key, it ∈ items -> key ∈ id_keys ->
                  truthy (get it key) = false) ->
  index_by_ids items = ∅.
Proof.
  intros Hno. apply map_eq. intros K.
  rewrite lookup_empty, index_by_ids_lookup, filter_none; [done|].
  apply Forall_forall. intros it Hin (key & Hkey & Ht & _)%elem_of_item_keys.
  by rewrite (Hno it key Hin Hkey) in Ht.
Qed.

(** X15: on a library none of whose items carries a true identifier,
    [prefer_ids] changes nothing. *)
Theorem library_without_ids (src items : list pydict) th :
  (forall it key, it ∈ items -> key ∈ id_keys ->
                  truthy (get it key) = false) ->
  match_present WRatio src items th true
  = match_present WRatio src items th false.
Proof.
  intros Hno. unfold match_present. cbv zeta.
  rewrite (index_by_ids_no_ids items Hno).
  destruct (build_title_year_index items) as [ty|]; [|done]. cbn.
  destruct (mapM norm_title items) as [titles|]; [|done]. cbn.
  generalize (Some (@nil pydict, @nil pydict)).
  induction src as [|s src IH]; intros acc; [done|]. cbn [foldl].
  rewrite <- IH. f_equal.
  destruct acc as [acc|]; [|done]. cbn. f_equal.
  unfold match_one. cbv zeta. by rewrite id_stage_empty.
Qed.

Lemma mark_kind s r : get (mark s r) "kind" = get s "kind".
Proof. unfold mark, get. by rewrite lookup_insert_ne. Qed.

Lemma filter_either_length {A} (P Q : A -> Prop)
    `{!forall x, Decision (P x)} `{!forall x, Decision (Q x)} (l : list A) :
  (forall x, P x -> Q x -> False) ->
  length (filter (fun x => P x \/ Q x) l)
  = length (filter P l) + length (filter Q l).
Proof.
  intros Hd. induction l as [|x l IH]; [done|].
  rewrite !filter_cons.
  destruct (decide (P x)) as [HP|HP], (decide (Q x)) as [HQ|HQ].
  - by destruct (Hd x).
  - rewrite decide_True by auto. cbn. lia.
  - rewrite decide_True by auto. cbn. lia.
  - rewrite decide_False by tauto. done.
Qed.

(** X16: what [main] gets from one source list: the records reported for
    the movies all have kind movie, those reported for the shows all have
    kind show, and their number is the number of items of one of the two
    kinds; an item of another kind, or of none, is reported neither
    present nor missing. *)
Theorem reconcile_bundle_kinds (items movies shows : list pydict)
    th pid pm mm ps ms :
  reconcile_bundle WRatio items movies shows th pid
  = Some ((pm, mm), (ps, ms)) ->
  Forall (fun x => get x "kind" = VStr (u "movie")) (pm ++ mm)
  /\ Forall (fun x => get x "kind" = VStr (u "show")) (ps ++ ms)
  /\ length pm + length mm + length ps + length ms
     = length (filter (fun x => get x "kind" = VStr (u "movie")
                                \/ get x "kind" = VStr (u "show")) items).
Proof.
  unfold reconcile_bundle. cbv zeta.
  destruct (match_present WRatio (filter _ items) movies th pid)
    as [[pm' mm']|] eqn:Hm; [|done]. cbn [mbind option_bind].
  destruct (match_present WRatio (filter _ items) shows th pid)
    as [[ps' ms']|] eqn:Hs; [|done]. cbn [mbind option_bind].
  intros [= -> -> -> ->].
  assert (forall k src lib p m,
    match_present WRatio (filter (fun x => get x "kind" = VStr (u k)) src)
      lib th pid = Some (p, m) ->
    Forall (fun x => get x "kind" = VStr (u k)) (p ++ m)
    /\ length p + length m
       = length (filter (fun x => get x "kind" = VStr (u k)) src)) as Hpart.
  { intros k src lib p m (mt & Hil & Hps & _)%match_present_spec.
    split.
    - apply Forall_app. split; apply Forall_forall.
      + intros e [i Hi]%list_elem_of_lookup.
        destruct (Forall2_lookup_r _ _ _ _ _ Hps Hi)
          as (s & Hsi%list_elem_of_lookup_2 & r & _ & ->).
        rewrite mark_kind.
        assert (s ∈ filter (fun x => get x "kind" = VStr (u k)) src)
          as [? _]%list_elem_of_filter
          by (apply (interleave_elem_of _ _ _ s Hil); by left).
        done.
      + intros s Hs'.
        assert (s ∈ filter (fun x => get x "kind" = VStr (u k)) src)
          as [? _]%list_elem_of_filter
          by (apply (interleave_elem_of _ _ _ s Hil); by right).
        done.
    - rewrite <- (interleave_length _ _ _ Hil).
      by rewrite (Forall2_length _ _ _ Hps). }
  destruct (Hpart _ _ _ _ _ Hm) as [HA HB].
  destruct (Hpart _ _ _ _ _ Hs) as [HC HD].
  split; [done|]. split; [done|].
  rewrite filter_either_length; [lia|].
  intros x -> [=].
Qed.

End MatchingProperties.

(** ** Facts about slugs *)

Lemma sub_runs_with_chars cls rep b t :
  Forall (fun c => c = rep \/ (cls c = false /\ c ∈ t))
    (sub_runs_with cls rep b t).
Proof.
  revert b. induction t as [|c t IH]; intros b; [constructor|]. cbn.
  assert (forall b', Forall (fun d => d = rep \/ cls d = false /\ d ∈ c :: t)
                       (sub_runs_with cls rep b' t)) as IH'.
  { intros b'. eapply Forall_impl; [apply IH|]. cbn.
    intros d [?|[? ?]]; [by left|right]. split; [done|].
    by apply list_elem_of_further. }
  destruct (cls c) eqn:Ec; [destruct b|]; try apply IH'.
  - constructor; [by left|apply IH'].
  - constructor; [|apply IH']. right. split; [done|apply list_elem_of_here].
Qed.

Lemma sub_runs_with_single cls rep b t :
  cls rep = true ->
  (b = true -> forall l, sub_runs_with cls rep b t <> rep :: l)
  /\ forall l1 l2, sub_runs_with cls rep b t <> l1 ++ rep :: rep :: l2.
Proof.
  intros Hrep. revert b. induction t as [|c t IH]; intros b.
  - split; [done|]. intros [|? ?] ?; done.
  - cbn. destruct (cls c) eqn:Ec; [destruct b|].
    + apply IH.
    + split; [done|]. intros [|d l1] l2; cbn.
      * intros [= E]. by eapply (proj1 (IH true)).
      * intros [= <- E]. by eapply (proj2 (IH true)).
    + split.
      * intros _ l [= -> _]. congruence.
      * intros [|d l1] l2; cbn.
        -- intros [= -> _]. congruence.
        -- intros [= -> E]. by eapply (proj2 (IH false)).
Qed.

Lemma sub_runs_with_id cls rep b t :
  Forall (fun c => cls c = true -> c = rep) t ->
  (forall l1 l2, t <> l1 ++ rep :: rep :: l2) ->
  (b = true -> forall l, t <> rep :: l) ->
  sub_runs_with cls rep b t = t.
Proof.
  intros Hc. revert b. induction Hc as [|c t Hc _ IH]; intros b Hd Hb;
    [done|].
  cbn. destruct (cls c) eqn:Ec.
  - rewrite (Hc eq_refl) in *. destruct b; [by destruct (Hb eq_refl t)|].
    f_equal. apply IH.
    + intros l1 l2 ->. by apply (Hd (rep :: l1) l2).
    + intros _ l ->. by apply (Hd [] l).
  - f_equal. apply IH; [|done].
    intros l1 l2 ->. by apply (Hd (c :: l1) l2).
Qed.

Lemma lstrip_char_suffix ch t : exists pre, t = pre ++ lstrip_char ch t.
Proof.
  induction t as [|c t [pre IH]]; [by exists []|]. cbn.
  destruct (c =? ch)%N; [|by exists []].
  exists (c :: pre). cbn. by f_equal.
Qed.

Lemma lstrip_char_head ch t l : lstrip_char ch t <> ch :: l.
Proof.
  induction t as [|d t IH]; [done|]. cbn.
  destruct (N.eqb_spec d ch) as [->|Hne]; [done|]. by intros [= -> _].
Qed.

Lemma lstrip_char_fixed ch t :
  (forall l, t <> ch :: l) -> lstrip_char ch t = t.
Proof.
  destruct t as [|c t]; [done|]. intros H. cbn.
  destruct (N.eqb_spec c ch) as [->|Hne]; [by destruct (H t)|done].
Qed.

Lemma strip_char_segment ch t :
  exists pre suf, t = pre ++ strip_char ch t ++ suf.
Proof.
  unfold strip_char. destruct (lstrip_char_suffix ch t) as [pre E1].
  destruct (lstrip_char_suffix ch (reverse (lstrip_char ch t))) as [suf E2].
  exists pre, (reverse suf). rewrite E1 at 1. f_equal.
  rewrite <- reverse_app, <- E2. by rewrite reverse_involutive.
Qed.

Lemma strip_char_edges ch t :
  (forall l, strip_char ch t <> ch :: l)
  /\ (forall l, strip_char ch t <> l ++ [ch]).
Proof.
  unfold strip_char.
  set (a := lstrip_char ch t). set (b := lstrip_char ch (reverse a)).
  split.
  - intros l E.
    destruct (lstrip_char_suffix ch (reverse a)) as [pre Hpre].
    fold b in Hpre.
    assert (a = reverse b ++ reverse pre) as Ha
      by (by rewrite <- reverse_app, <- Hpre, reverse_involutive).
    rewrite E in Ha. cbn in Ha. by apply (lstrip_char_head ch t _ Ha).
  - intros l E. apply (f_equal reverse) in E.
    rewrite reverse_involutive, reverse_snoc in E.
    by apply (lstrip_char_head ch (reverse a) _ E).
Qed.

Lemma strip_char_fixed ch t :
  (forall l, t <> ch :: l) -> (forall l, t <> l ++ [ch]) ->
  strip_char ch t = t.
Proof.
  intros H1 H2. unfold strip_char. rewrite (lstrip_char_fixed ch t H1).
  rewrite lstrip_char_fixed; [apply reverse_involutive|].
  intros l E. apply (f_equal reverse) in E.
  rewrite reverse_involutive, reverse_cons in E. by apply (H2 _ E).
Qed.

Lemma slug_facts s :
  Forall (fun c => not_slug_char c = false \/ c = dash) (slug s)
  /\ (forall l, slug s <> dash :: l)
  /\ (forall l, slug s <> l ++ [dash])
  /\ (forall l1 l2, slug s <> l1 ++ dash :: dash :: l2).
Proof.
  unfold slug.
  set (r := sub_runs_with not_slug_char dash false (lower s)).
  destruct (strip_char_segment dash r) as (pre & suf & E).
  destruct (strip_char_edges dash r) as [H1 H2].
  split; [|split; [done|split; [done|]]].
  - pose proof (sub_runs_with_chars not_slug_char dash false (lower s)) as Hc.
    fold r in Hc. rewrite E in Hc.
    apply Forall_app in Hc as [_ [Hc _]%Forall_app].
    eapply Forall_impl; [exact Hc|]. cbn. intros c [->|[? _]]; auto.
  - intros l1 l2 E'.
    apply (proj2 (sub_runs_with_single not_slug_char dash false (lower s)
                    eq_refl) (pre ++ l1) (l2 ++ suf)).
    fold r. rewrite E at 1. rewrite E'. by rewrite <- !app_assoc.
Qed.

(** X17: a slug is made of the characters [a-z], [0-9] and the hyphen,
    neither begins nor ends with a hyphen and has no two hyphens in a
    row. *)
Theorem slug_shape s :
  Forall (fun c => not_slug_char c = false \/ c = dash) (slug s)
  /\ (forall l, slug s <> dash :: l)
  /\ (forall l, slug s <> l ++ [dash])
  /\ (forall l1 l2, slug s <> l1 ++ dash :: dash :: l2).
Proof. apply slug_facts. Qed.

(** X18: [slug] is idempotent. *)
Theorem slug_idempotent s : slug (slug s) = slug s.
Proof.
  unfold slug at 1.
  set (r := sub_runs_with not_slug_char dash false (lower s)).
  set (q := slug s).
  destruct (slug_facts s) as (Hc & H1 & H2 & H3). fold q in Hc, H1, H2, H3.
  assert (lower q = q) as ->.
  { clear H1 H2 H3. unfold lower.
    induction Hc as [|c l Hc _ IH]; [done|]. cbn. rewrite IH. f_equal.
    destruct Hc as [Hc| ->]; [|done].
    revert Hc. unfold not_slug_char, lower_char. char_cases; discriminate. }
  rewrite sub_runs_with_id; [by apply strip_char_fixed| |done|done].
  eapply Forall_impl; [exact Hc|]. cbn. intros c [->|?]; done.
Qed.

(** ** The title stages *)

Section TitleStages.

Variable WRatio : pystr -> pystr -> Q.

Lemma pick_head s c (items : list pydict) :
  Forall has_title items ->
  pick s c items
  = Some (head (filter (fun p => norm_title p = Some c
                                 /\ year_ok s p = true) items)).
Proof.
  induction 1 as [|p items [t Ht] _ IH]; [done|].
  cbn [pick]. rewrite Ht. cbn [mbind option_bind]. rewrite filter_cons.
  destruct (decide (t = c)) as [->|Hne].
  - rewrite bool_decide_eq_true_2 by done. cbn [andb].
    destruct (year_ok s p) eqn:Hy.
    + by rewrite decide_True.
    + rewrite decide_False by (intros [_ ?]; congruence). exact IH.
  - rewrite bool_decide_eq_false_2 by done. cbn [andb].
    rewrite decide_False; [exact IH|]. intros [? _]. congruence.
Qed.

(** X19: once the best-scoring title is accepted, the fuzzy stage returns
    the first library item that has this normalised title and passes the
    year test, and nothing when there is none: no other title is tried,
    whatever its score. *)
Theorem fuzzy_stage_first (items : list pydict) titles th s st c :
  norm_title s = Some st ->
  Forall has_title items ->
  fuzzy_candidate WRatio st titles th = Some c ->
  fuzzy_stage WRatio s items titles th
  = Some (head (filter (fun p => norm_title p = Some c
                                 /\ year_ok s p = true) items)).
Proof.
  intros Hst Hit Hc. unfold fuzzy_stage. rewrite Hst. cbn. rewrite Hc.
  by apply pick_head.
Qed.

(** X20: when the identifier stage finds nothing, an item found by the
    exact title and year lookup is the match, whatever the scorer and the
    threshold. *)
Theorem exact_match_first (items : list pydict) ty th (pid : bool) s r :
  build_title_year_index items = Some ty ->
  pid = false \/ id_stage id_keys s (index_by_ids items) = None ->
  exact_stage s ty = Some (Some r) ->
  find_match WRatio items th pid s = Some (Some r).
Proof.
  intros Hty Hid Hex.
  pose proof (build_title_year_index_has_title _ _ Hty) as Hit.
  destruct (mapM_is_Some_2 norm_title items) as [titles Htl]; [done|].
  unfold find_match. cbv zeta. rewrite Hty, Htl. cbn.
  unfold match_one. cbv zeta.
  assert ((if pid then id_stage id_keys s (if pid then index_by_ids items
                                            else ∅) else None) = None)
    as -> by (destruct Hid as [->|Hid]; [done|by destruct pid]).
  cbn. rewrite Hex. cbn [mbind option_bind].
  by rewrite (exact_stage_found_true _ _ _ _ Hty Hex).
Qed.

Lemma titles_of_items (items : list pydict) titles :
  mapM norm_title items = Some titles ->
  (forall c, c ∈ titles -> exists p, p ∈ items /\ norm_title p = Some c)
  /\ (forall p c, p ∈ items -> norm_title p = Some c -> c ∈ titles).
Proof.
  intros H%mapM_Some. split.
  - intros c [i Hi]%list_elem_of_lookup.
    destruct (Forall2_lookup_r _ _ _ _ _ H Hi) as (p & Hp & Hpc).
    exists p. split; [by eapply list_elem_of_lookup_2|done].
  - intros p c [i Hi]%list_elem_of_lookup Hc.
    destruct (Forall2_lookup_l _ _ _ _ _ H Hi) as (c' & Hc' & Hpc).
    rewrite Hc in Hpc. injection Hpc as <-.
    by eapply list_elem_of_lookup_2.
Qed.

(** X21: a reference without a year is matched as soon as some library
    item has its normalised title, whatever the year of that item: the
    exact lookup wants an item without a year, but the fuzzy stage, with
    a scorer that gives 100 to the title against itself and a threshold of
    at most 100, accepts a library title and applies no year test. *)
Theorem no_year_reference_matches (items : list pydict) th pid s st p :
  norm_title s = Some st ->
  truthy (get s "year") = false ->
  Forall has_title items ->
  p ∈ items -> norm_title p = Some st ->
  (forall t, (0 <= WRatio st t <= 100)%Q) ->
  (WRatio st st == 100)%Q ->
  (th <= 100)%Z ->
  exists r, find_match WRatio items th pid s = Some (Some r)
            /\ r ∈ items.
Proof.
  intros Hst Hy Hit Hp Hpt Hrange Hself Hth.
  destruct (library_indexes items Hit) as (ty & titles & Hty & Htl).
  assert (exists r, find_match WRatio items th pid s = Some (Some r)) as [r Hr];
    [|exists r; split; [done|by eapply find_match_elem]].
  rewrite (find_match_unfold WRatio items th pid s ty titles Hty Htl).
  unfold match_one. cbv zeta.
  set (f0 := if pid then id_stage id_keys s _ else None).
  destruct (found_true f0) eqn:Hf0; cbn [mbind option_bind].
  { rewrite Hf0. destruct f0 as [r|]; [by exists r|done]. }
  unfold exact_stage. rewrite Hst. cbn [mbind option_bind].
  set (f1 := ty !! _).
  destruct (found_true f1) eqn:Hf1.
  { destruct f1 as [r|]; [by exists r|done]. }
  destruct (titles_of_items items titles Htl) as [Hback Hforth].
  pose proof (Hforth p st Hp Hpt) as Hin.
  pose proof (extractOne_best WRatio st titles (fun t _ => Hrange t)) as Hex.
  unfold fuzzy_stage, fuzzy_candidate. rewrite Hst. cbn [mbind option_bind].
  destruct (extractOne WRatio st titles) as [[[c sc] k]|];
    [|by subst; apply elem_of_nil in Hin].
  destruct Hex as (Hc & -> & Hmax).
  assert (Qle_bool (inject_Z th) (WRatio st c) = true) as ->.
  { apply Qle_bool_iff. pose proof (Hmax st Hin) as Hle.
    rewrite Zle_Qle in Hth. change (inject_Z 100) with 100%Q in Hth. lra. }
  rewrite (pick_head s c items Hit). cbn [mbind option_bind].
  destruct (Hback c Hc) as (p' & Hp' & Hp't).
  assert (p' ∈ filter (fun q => norm_title q = Some c
                                /\ year_ok s q = true) items) as Hf.
  { apply list_elem_of_filter. split; [|done]. split; [done|].
    unfold year_ok. by rewrite Hy. }
  destruct (filter _ items) as [|r l]; [by apply elem_of_nil in Hf|].
  by exists r.
Qed.

(** ** The lists for Radarr and Sonarr *)

Section Collect.

Variables (movies shows : list pydict) (th : Z) (pid : bool).

Let stepc :=
  fun (acc : option (list pydict * list pydict))
      (bundle : pystr * list pydict) =>
    '(radarr_missing_movies, sonarr_missing_shows) ← acc;
    '((_, missing_movies), (_, missing_shows)) ←
      reconcile_bundle WRatio bundle.2 movies shows th pid;
    Some (radarr_missing_movies ++ missing_movies,
          sonarr_missing_shows ++ missing_shows).

Lemma collect_None bundles : foldl stepc None bundles = None.
Proof. by induction bundles. Qed.

Lemma collect_shift bundles : forall r0 s0,
  foldl stepc (Some (r0, s0)) bundles
  = '(r, s) ← foldl stepc (Some ([], [])) bundles;
    Some (r0 ++ r, s0 ++ s).
Proof.
  induction bundles as [|b bundles IH]; intros r0 s0.
  - cbn. by rewrite !app_nil_r.
  - cbn [foldl]. unfold stepc at 2 4. cbn [mbind option_bind].
    destruct (reconcile_bundle WRatio b.2 movies shows th pid)
      as [[[pm mm] [ps ms]]|]; cbn [mbind option_bind];
      [|by rewrite !collect_None].
    rewrite (IH (r0 ++ mm) (s0 ++ ms)), (IH ([] ++ mm) ([] ++ ms)).
    destruct (foldl stepc (Some ([], [])) bundles) as [[r s]|]; [|done].
    cbn. by rewrite <- !app_assoc.
Qed.

End Collect.

Lemma collect_missing_app_eq bundles1 bundles2 movies shows th pid :
  collect_missing WRatio (bundles1 ++ bundles2) movies shows th pid
  = '(r1, s1) ← collect_missing WRatio bundles1 movies shows th pid;
    '(r2, s2) ← collect_missing WRatio bundles2 movies shows th pid;
    Some (r1 ++ r2, s1 ++ s2).
Proof.
  unfold collect_missing. rewrite foldl_app.
  destruct (foldl _ (Some ([], [])) bundles1) as [[r1 s1]|];
    cbn [mbind option_bind]; [|apply collect_None].
  apply collect_shift.
Qed.

(** X22: the lists [main] builds for Radarr and Sonarr over several
    source lists are the concatenations, in order, of the lists built for
    each part of them: nothing is merged or left out, so that a record
    missing from two source lists is queued twice. *)
Theorem collect_missing_app bundles1 bundles2 movies shows th pid :
  collect_missing WRatio (bundles1 ++ bundles2) movies shows th pid
  = '(r1, s1) ← collect_missing WRatio bundles1 movies shows th pid;
    '(r2, s2) ← collect_missing WRatio bundles2 movies shows th pid;
    Some (r1 ++ r2, s1 ++ s2).
Proof. apply collect_missing_app_eq. Qed.

Lemma missing_of_kind k (src lib : list pydict) th pid p m x :
  match_present WRatio (filter (fun y => get y "kind" = VStr (u k)) src)
    lib th pid = Some (p, m) ->
  x ∈ m <->
  x ∈ src /\ get x "kind" = VStr (u k)
  /\ exists f, find_match WRatio lib th pid x = Some f
               /\ found_true f = false.
Proof.
  intros (mt & Hil & Hps & Hms)%match_present_spec. split.
  - intros Hx.
    assert (x ∈ filter (fun y => get y "kind" = VStr (u k)) src)
      as [? ?]%list_elem_of_filter
      by (apply (interleave_elem_of _ _ _ x Hil); by right).
    rewrite Forall_forall in Hms. by destruct (Hms x Hx) as (f & ? & ?); eauto.
  - intros (Hin & Hk & f & Hf & Hft).
    assert (x ∈ filter (fun y => get y "kind" = VStr (u k)) src) as Hx
      by (by apply list_elem_of_filter).
    apply (interleave_elem_of _ _ _ x Hil) in Hx as [Hx|Hx]; [|done].
    apply list_elem_of_lookup in Hx as [i Hi].
    destruct (Forall2_lookup_l _ _ _ _ _ Hps Hi) as (e & _ & r & Hr & _).
    destruct (find_match_elem _ _ _ _ _ _ Hr) as [_ Hrt].
    rewrite Hf in Hr. injection Hr as ->.
    by rewrite (has_title_found_true r Hrt) in Hft.
Qed.

(** X23: when the run over the source lists returns, a record is queued
    for Radarr exactly when it is an item of kind movie of some source
    list for which the movie library yields no match, and for Sonarr
    exactly when it is an item of kind show of some source list for which
    the show library yields none. *)
Theorem collect_missing_spec bundles movies shows th pid rm sm :
  collect_missing WRatio bundles movies shows th pid = Some (rm, sm) ->
  forall x,
    (x ∈ rm <->
     exists b, b ∈ bundles /\ x ∈ b.2 /\ get x "kind" = VStr (u "movie")
       /\ exists f, find_match WRatio movies th pid x = Some f
                    /\ found_true f = false)
    /\ (x ∈ sm <->
        exists b, b ∈ bundles /\ x ∈ b.2 /\ get x "kind" = VStr (u "show")
          /\ exists f, find_match WRatio shows th pid x = Some f
                       /\ found_true f = false).
Proof.
  revert rm sm. induction bundles as [|b bundles IH] using rev_ind;
    intros rm sm.
  - intros [= <- <-] x. split; split; try by intros ?%elem_of_nil.
    + by intros (b & ?%elem_of_nil & _).
    + by intros (b & ?%elem_of_nil & _).
  - rewrite collect_missing_app_eq.
    destruct (collect_missing WRatio bundles movies shows th pid)
      as [[r1 s1]|]; [|done]. cbn [mbind option_bind].
    unfold collect_missing at 1. cbn [foldl mbind option_bind].
    unfold reconcile_bundle. cbv zeta.
    destruct (match_present WRatio (filter _ b.2) movies th pid)
      as [[pm mm]|] eqn:Hm; [|done]. cbn [mbind option_bind].
    destruct (match_present WRatio (filter _ b.2) shows th pid)
      as [[ps ms]|] eqn:Hs; [|done]. cbn [mbind option_bind].
    intros [= <- <-] x. destruct (IH r1 s1 eq_refl x) as [IH1 IH2].
    pose proof (missing_of_kind _ _ _ _ _ _ _ x Hm) as Hmm.
    pose proof (missing_of_kind _ _ _ _ _ _ _ x Hs) as Hms.
    cbn [app]. rewrite !elem_of_app, IH1, IH2, Hmm, Hms.
    split; split.
    + intros [(b' & Hb' & H)|H]; [exists b'|exists b];
        (split; [apply elem_of_app; auto using list_elem_of_here|done]).
    + intros (b' & [Hb'|Hb']%elem_of_app & H); [left; by exists b'|right].
      apply list_elem_of_singleton in Hb'. by subst.
    + intros [(b' & Hb' & H)|H]; [exists b'|exists b];
        (split; [apply elem_of_app; auto using list_elem_of_here|done]).
    + intros (b' & [Hb'|Hb']%elem_of_app & H); [left; by exists b'|right].
      apply list_elem_of_singleton in Hb'. by subst.
Qed.

Lemma missing_has_title (src lib : list pydict) th pid p m :
  match_present WRatio src lib th pid = Some (p, m) ->
  Forall has_title m.
Proof.
  intros (mt & _ & _ & Hms)%match_present_spec.
  eapply Forall_impl; [exact Hms|]. cbn. intros s (f & Hf & Hft).
  pose proof (find_match_library _ _ _ _ _ _ Hf) as Hit.
  destruct (library_indexes lib Hit) as (ty & titles & Hty & Htl).
  rewrite (find_match_unfold WRatio lib th pid s ty titles Hty Htl) in Hf.
  unfold match_one in Hf. cbv zeta in Hf.
  destruct (norm_title s) as [t|] eqn:Ht; [by exists t|].
  unfold exact_stage, fuzzy_stage in Hf. rewrite Ht in Hf.
  set (f0 := if pid then _ else None) in Hf.
  destruct (found_true f0) eqn:Hf0; cbn [mbind option_bind] in Hf; [|done].
  rewrite Hf0 in Hf. assert (f0 = f) as <- by congruence. congruence.
Qed.

(** X24: every record that [match_present] reports missing has a [str]
    title, since a record without one either is matched by an identifier
    or makes the call raise; so the lookup terms of [radarr_add_missing]
    and [sonarr_add_missing] are defined on every missing record. *)
Theorem missing_records_have_titles (src lib : list pydict) th pid p m :
  match_present WRatio src lib th pid = Some (p, m) ->
  Forall (fun x =>
            (exists t, x !! "title" = Some (VStr t))
            /\ is_Some (radarr_look_term x)
            /\ is_Some (sonarr_term x)) m.
Proof.
  intros Hm%missing_has_title.
  eapply Forall_impl; [exact Hm|]. cbn. intros x [t Ht].
  unfold norm_title in Ht.
  destruct (x !! "title") as [[|t'|z]|] eqn:E; try done.
  split; [by exists t'|].
  unfold radarr_look_term, sonarr_term. cbv zeta. rewrite E.
  split.
  - destruct (truthy (get x "imdb_id")); [by eexists|].
    destruct (truthy (get x "tmdb_id")); by eexists.
  - destruct (truthy (get x "tvdb_id")); [by eexists|].
    destruct (truthy (get x "imdb_id")); by eexists.
Qed.

End TitleStages.

(** ** Facts about the Plex library records *)

Section PlexFacts.

Variable is_digit : N -> bool.

Lemma take_digits_digits t :
  Forall (fun c => is_digit c = true) (take_digits is_digit t).
Proof.
  induction t as [|c t IH]; [constructor|]. cbn.
  destruct (is_digit c) eqn:E; by constructor.
Qed.

Lemma digits_after_here_Some lit t ds :
  digits_after_here is_digit lit t = Some ds ->
  ds <> [] /\ Forall (fun c => is_digit c = true) ds
  /\ starts_with lit t = true.
Proof.
  unfold digits_after_here. destruct (starts_with lit t); [|done].
  pose proof (take_digits_digits (drop (length lit) t)) as Hd.
  destruct (take_digits is_digit (drop (length lit) t)) as [|d ds'];
    [done|].
  by intros [= <-].
Qed.

Lemma search_digits_after_Some lit t ds :
  search_digits_after is_digit lit t = Some ds ->
  ds <> [] /\ Forall (fun c => is_digit c = true) ds
  /\ contains lit t = true.
Proof.
  induction t as [|c t IH]; cbn [search_digits_after contains].
  - destruct (digits_after_here is_digit lit []) eqn:E; [|done].
    intros [= ->]. apply digits_after_here_Some in E as (? & ? & ->). done.
  - destruct (digits_after_here is_digit lit (c :: t)) eqn:E.
    + intros [= ->]. apply digits_after_here_Some in E as (? & ? & ->). done.
    + intros (? & ? & ->)%IH. by rewrite orb_true_r.
Qed.

(** What one guid does to each of the three entries: the guards on the
    scheme are implied by the searches. *)
Lemma extract_ids_step_get ids g :
  get (extract_ids_step is_digit ids g) "imdb_id"
  = match search_digits_after is_digit (u "tt") (guid_uri g) with
    | Some ds => VStr (u "tt" ++ ds)
    | None => get ids "imdb_id"
    end
  /\ get (extract_ids_step is_digit ids g) "tmdb_id"
     = match search_digits_after is_digit (u "themoviedb://") (guid_uri g)
       with
       | Some ds => VStr ds
       | None => get ids "tmdb_id"
       end
  /\ get (extract_ids_step is_digit ids g) "tvdb_id"
     = match search_digits_after is_digit (u "thetvdb://") (guid_uri g)
       with
       | Some ds => VStr ds
       | None => get ids "tvdb_id"
       end.
Proof.
  unfold extract_ids_step. cbv zeta.
  destruct (search_digits_after is_digit (u "tt") (guid_uri g)) as [d1|]
    eqn:E1;
    [apply search_digits_after_Some in E1 as (_ & _ & ->);
     rewrite orb_true_r|];
  (destruct (search_digits_after is_digit (u "themoviedb://") (guid_uri g))
     as [d2|] eqn:E2;
     [apply search_digits_after_Some in E2 as (_ & _ & ->)|]);
  (destruct (search_digits_after is_digit (u "thetvdb://") (guid_uri g))
     as [d3|] eqn:E3;
     [apply search_digits_after_Some in E3 as (_ & _ & ->)|]);
  repeat match goal with
         | |- context [if ?b then _ else _] => destruct b
         end;
  unfold get;
  repeat split;
  rewrite ?lookup_insert_eq, ?lookup_insert_ne by done; try reflexivity;
  rewrite ?lookup_insert_eq, ?lookup_insert_ne by done; reflexivity.
Qed.

Lemma extract_ids_step_dom ids g :
  dom ids = list_to_set id_keys ->
  dom (extract_ids_step is_digit ids g) = list_to_set id_keys.
Proof.
  intros Hd. unfold extract_ids_step. cbv zeta.
  repeat match goal with
         | |- context [if ?b then _ else _] => destruct b
         | |- context [match ?o with Some _ => _ | None => _ end] =>
             destruct o
         end;
  rewrite ?dom_insert_L, Hd; unfold id_keys; set_solver.
Qed.

Lemma extract_ids_snoc gs g :
  extract_ids_from_guids is_digit (Some (gs ++ [g]))
  = extract_ids_step is_digit (extract_ids_from_guids is_digit (Some gs)) g.
Proof. unfold extract_ids_from_guids. cbn. by rewrite foldl_snoc. Qed.

Lemma extract_ids_facts guids :
  dom (extract_ids_from_guids is_digit guids) = list_to_set id_keys
  /\ id_value is_digit (u "tt")
       (get (extract_ids_from_guids is_digit guids) "imdb_id")
  /\ id_value is_digit []
       (get (extract_ids_from_guids is_digit guids) "tmdb_id")
  /\ id_value is_digit []
       (get (extract_ids_from_guids is_digit guids) "tvdb_id").
Proof.
  assert (forall gs, let ids := extract_ids_from_guids is_digit (Some gs) in
            dom ids = list_to_set id_keys
            /\ id_value is_digit (u "tt") (get ids "imdb_id")
            /\ id_value is_digit [] (get ids "tmdb_id")
            /\ id_value is_digit [] (get ids "tvdb_id")) as Hgs.
  { induction gs as [|g gs IH] using rev_ind.
    - cbn. repeat split; try (by left); unfold id_keys; set_solver.
    - cbn zeta in *. rewrite extract_ids_snoc.
      destruct IH as (Hd & H1 & H2 & H3).
      destruct (extract_ids_step_get
                  (extract_ids_from_guids is_digit (Some gs)) g)
        as (-> & -> & ->).
      split; [by apply extract_ids_step_dom|].
      repeat split.
      + destruct (search_digits_after _ _ _) as [ds|] eqn:E; [|done].
        apply search_digits_after_Some in E as (? & ? & _).
        right. by exists ds.
      + destruct (search_digits_after _ (u "themoviedb://") _) as [ds|]
          eqn:E; [|done].
        apply search_digits_after_Some in E as (? & ? & _).
        right. by exists ds.
      + destruct (search_digits_after _ (u "thetvdb://") _) as [ds|]
          eqn:E; [|done].
        apply search_digits_after_Some in E as (? & ? & _).
        right. by exists ds. }
  destruct guids as [gs|]; [apply Hgs|apply (Hgs [])].
Qed.

(** X25: the dictionary [extract_ids_from_guids] returns has exactly the
    keys [imdb_id], [tmdb_id] and [tvdb_id]; the imdb id is [None] or
    [tt] followed by at least one digit, the other two are [None] or made
    of at least one digit.  Without guids all three are [None]. *)
Theorem extract_ids_values guids :
  dom (extract_ids_from_guids is_digit guids) = list_to_set id_keys
  /\ id_value is_digit (u "tt")
       (get (extract_ids_from_guids is_digit guids) "imdb_id")
  /\ id_value is_digit []
       (get (extract_ids_from_guids is_digit guids) "tmdb_id")
  /\ id_value is_digit []
       (get (extract_ids_from_guids is_digit guids) "tvdb_id")
  /\ extract_ids_from_guids is_digit None = no_ids
  /\ extract_ids_from_guids is_digit (Some []) = no_ids.
Proof.
  destruct (extract_ids_facts guids) as (H1 & H2 & H3 & H4).
  repeat split; done.
Qed.

(** X26: the last guid decides.  After one more guid the imdb id is [tt]
    with the digits of the leftmost [tt] followed by a digit in its text,
    whatever the scheme of the guid, and the tmdb and tvdb ids are the
    digits after the leftmost [themoviedb://] or [thetvdb://] followed by
    a digit; an entry for which the guid has no such match keeps its
    value. *)
Theorem extract_ids_last_guid gs g :
  let before := extract_ids_from_guids is_digit (Some gs) in
  let after := extract_ids_from_guids is_digit (Some (gs ++ [g])) in
  get after "imdb_id"
  = match search_digits_after is_digit (u "tt") (guid_uri g) with
    | Some ds => VStr (u "tt" ++ ds)
    | None => get before "imdb_id"
    end
  /\ get after "tmdb_id"
     = match search_digits_after is_digit (u "themoviedb://") (guid_uri g)
       with
       | Some ds => VStr ds
       | None => get before "tmdb_id"
       end
  /\ get after "tvdb_id"
     = match search_digits_after is_digit (u "thetvdb://") (guid_uri g)
       with
       | Some ds => VStr ds
       | None => get before "tvdb_id"
       end.
Proof. cbv zeta. rewrite extract_ids_snoc. apply extract_ids_step_get. Qed.

Lemma id_value_truthy prefix v :
  id_value is_digit prefix v -> v = VNone \/ truthy v = true.
Proof.
  intros [->|(ds & Hne & _ & ->)]; [by left|right]. cbn.
  rewrite bool_decide_eq_false_2; [done|]. by destruct prefix, ds.
Qed.

Lemma plex_record_facts kind m :
  let r := plex_record is_digit kind m in
  norm_title r
  = match item_title m with
    | VStr t => Some (normalize_title t)
    | _ => None
    end
  /\ get r "kind" = VStr (u kind)
  /\ r !! "year" = Some (VStr (format (or_empty (item_year m))))
  /\ get r "ratingKey" = item_ratingKey m
  /\ forall key, key ∈ id_keys ->
       get r key = VNone \/ truthy (get r key) = true.
Proof.
  cbv zeta. unfold plex_record. cbv zeta.
  destruct (extract_ids_facts (item_guids m)) as (_ & H1 & H2 & H3).
  repeat split.
  intros key. unfold id_keys. rewrite !elem_of_cons, elem_of_nil.
  intros [->|[->|[->|[]]]]; unfold get at 1 3; cbn [list_to_map foldr];
    rewrite ?lookup_insert_ne, lookup_insert_eq by done; cbn [default];
    by eapply id_value_truthy.
Qed.

Lemma plex_record_has_title kind m :
  has_title (plex_record is_digit kind m)
  <-> exists t, item_title m = VStr t.
Proof.
  unfold has_title. rewrite (proj1 (plex_record_facts kind m)).
  destruct (item_title m) as [|t|z]; split;
    try (by intros [? [=]]); try (by intros [? ?]); by eauto.
Qed.

Lemma plex_record_of kind m :
  record_of is_digit kind m (plex_record is_digit kind m).
Proof.
  destruct (extract_ids_facts (item_guids m)) as (_ & H1 & H2 & H3).
  unfold record_of, plex_record. cbv zeta.
  split.
  { cbn [list_to_map foldr list_to_set]. rewrite !dom_insert_L, dom_empty_L.
    done. }
  split; [done|]. split.
  { unfold or_empty. by destruct (truthy (item_year m)). }
  split; [done|]. split; [done|]. split; [|done].
  intros key. unfold id_keys. rewrite !elem_of_cons, elem_of_nil.
  by intros [->|[->|[->|[]]]].
Qed.

Lemma build_title_year_index_iff items :
  is_Some (build_title_year_index items) <-> Forall has_title items.
Proof.
  split; [|apply build_title_year_index_Some].
  intros [d Hd]. by eapply build_title_year_index_has_title.
Qed.

(** X27: the two lists [gather_plex] returns hold, in the order of the
    sections and of the items within a section, one record per item.  A
    record has the seven keys, the title of its item copied as it is, the
    year as text, empty when the item has none, the rating key, the kind
    of its list, and identifiers that are [None] or end in at least one
    digit.  The title index of a list can be built exactly when the title
    of every item is a [str]. *)
Theorem gather_plex_records movie_sections show_sections :
  let '(movies, shows) :=
    gather_plex is_digit movie_sections show_sections in
  Forall2 (record_of is_digit "movie") (concat movie_sections) movies
  /\ Forall2 (record_of is_digit "show") (concat show_sections) shows
  /\ (is_Some (build_title_year_index movies)
      <-> Forall (fun m => exists t, item_title m = VStr t)
            (concat movie_sections))
  /\ (is_Some (build_title_year_index shows)
      <-> Forall (fun m => exists t, item_title m = VStr t)
            (concat show_sections)).
Proof.
  unfold gather_plex.
  assert (forall kind l,
            Forall2 (record_of is_digit kind) l
              (plex_record is_digit kind <$> l)) as Hrec.
  { intros kind l. apply Forall2_fmap_r, Forall_Forall2_diag, Forall_forall.
    intros m _. apply plex_record_of. }
  assert (forall kind l,
            is_Some (build_title_year_index (plex_record is_digit kind <$> l))
            <-> Forall (fun m => exists t, item_title m = VStr t) l) as Hidx.
  { intros kind l. rewrite build_title_year_index_iff, Forall_fmap.
    apply Forall_iff. intros m. apply plex_record_has_title. }
  repeat split; try apply Hrec; by apply Hidx.
Qed.

End PlexFacts.

(** ** More of the functions on sample data *)

(** An apostrophe, a run of punctuation and a leading parenthesis. *)
Example normalize_title_samples :
  normalize_title (u "Dr. Strangelove or: How I Learned")
  = u "dr strangelove or how i learned"
  /\ normalize_title (u "(500) Days of Summer") = u " 500 days of summer"
  /\ slug (u "Trakt: user/top-100") = u "trakt-user-top-100"
  /\ slug (u "IMDb Top 250 Movies") = u "imdb-top-250-movies".
Proof. repeat split; compute_done. Qed.

(** Guids in the present scheme give the imdb id only, since the tmdb and
    tvdb ids are looked for after [themoviedb://] and [thetvdb://]; a
    guid of the former agents gives the tmdb id. *)
Example extract_ids_samples :
  extract_ids_from_guids ascii_digit (Some shawshank_guids)
  = list_to_map [("imdb_id", VStr (u "tt0111161")); ("tmdb_id", VNone);
                 ("tvdb_id", VNone)]
  /\ extract_ids_from_guids ascii_digit (Some legacy_guids)
     = list_to_map [("imdb_id", VNone); ("tmdb_id", VStr (u "278"));
                    ("tvdb_id", VNone)]
  /\ plex_record ascii_digit "movie" shawshank_item = shawshank_lib.
Proof. repeat split; compute_done. Qed.

(** A library section with an item whose title is [None]: the records
    are returned, and the title index of the list cannot be built. *)
Example gather_plex_samples :
  gather_plex ascii_digit [[shawshank_item]; []] []
  = ([shawshank_lib], [])
  /\ build_title_year_index
       (fst (gather_plex ascii_digit [[shawshank_item]; [untitled_item]] []))
     = None
  /\ get (plex_record ascii_digit "show" untitled_item) "year" = VStr [].
Proof. repeat split; compute_done. Qed.

Lemma normalize_title_twice_witness :
  Forall (fun c => in_lower_range c = true) (u "Airplane!")
  /\ Forall (fun c => in_lower_range c = true)
       (normalize_title (u "Airplane!"))
  /\ normalize_title (normalize_title (u "Airplane!"))
     = strip (normalize_title (u "Airplane!"))
  /\ normalize_title (normalize_title (normalize_title (u "Airplane!")))
     = normalize_title (normalize_title (u "Airplane!")).
Proof.
  assert (Forall (fun c => in_lower_range c = true) (u "Airplane!")) as H
    by compute_done.
  split; [exact H|]. exact (normalize_title_twice _ H).
Defined.

Lemma normalize_title_idempotent_iff_witness :
  Forall (fun c => in_lower_range c = true) (u "(500) Days of Summer")
  /\ (normalize_title (normalize_title (u "(500) Days of Summer"))
      = normalize_title (u "(500) Days of Summer")
      <-> (forall c l, strip (u "(500) Days of Summer") = c :: l ->
             is_punct c = false)
          /\ (forall c l, strip (u "(500) Days of Summer") = l ++ [c] ->
                is_punct c = false)).
Proof.
  assert (Forall (fun c => in_lower_range c = true)
            (u "(500) Days of Summer")) as H by compute_done.
  split; [exact H|]. exact (normalize_title_idempotent_iff _ H).
Defined.

Lemma title_year_index_round_trip_witness :
  build_title_year_index ([] ++ dup_first :: [dup_second])
  = Some (default ∅ (build_title_year_index [dup_first; dup_second]))
  /\ exists k r,
       ty_key dup_first = Some k
       /\ default ∅ (build_title_year_index [dup_first; dup_second]) !! k
          = Some r
       /\ ty_key r = Some k
       /\ ((r = dup_first
            /\ Forall (fun x => ty_key x <> Some k) [dup_second])
           \/ exists l2a l2b,
                [dup_second] = l2a ++ r :: l2b
                /\ Forall (fun x => ty_key x <> Some k) l2b).
Proof.
  assert (build_title_year_index ([] ++ dup_first :: [dup_second])
          = Some (default ∅ (build_title_year_index [dup_first; dup_second])))
    as H by compute_done.
  split; [exact H|].
  exact (proj1 (title_year_index_round_trip _ _ _ _ H)).
Defined.

Lemma library_title_required_witness :
  (exists it, it ∈ [matrix_lib; id_only_ref]
              /\ forall t, it !! "title" <> Some (VStr t))
  /\ match_present exact_ratio [matrix_ref] [matrix_lib; id_only_ref] 90 true
     = None
  /\ Forall has_title [matrix_lib]
  /\ match_present exact_ratio [] [matrix_lib] 90 true = Some ([], []).
Proof.
  assert (exists it, it ∈ [matrix_lib; id_only_ref]
                     /\ forall t, it !! "title" <> Some (VStr t)) as H1.
  { exists id_only_ref. split; [compute_done|]. intros t. compute_done. }
  assert (Forall has_title [matrix_lib]) as H2 by compute_done.
  destruct (library_title_required exact_ratio [matrix_lib; id_only_ref]
              90%Z true) as [H3 _].
  destruct (library_title_required exact_ratio [matrix_lib] 90%Z true)
    as [_ H4].
  exact (conj H1 (conj (H3 H1 _) (conj H2 (H4 H2)))).
Defined.

Lemma empty_library_all_missing_witness :
  Forall has_title [matrix_ref; reloaded_ref]
  /\ match_present exact_ratio [matrix_ref; reloaded_ref] [] 90 true
     = Some ([], [matrix_ref; reloaded_ref])
  /\ ~ Forall has_title [matrix_ref; id_only_ref]
  /\ match_present exact_ratio [matrix_ref; id_only_ref] [] 90 true = None.
Proof.
  assert (Forall has_title [matrix_ref; reloaded_ref]) as H1 by compute_done.
  assert (~ Forall has_title [matrix_ref; id_only_ref]) as H2
    by compute_done.
  destruct (empty_library_all_missing exact_ratio
              [matrix_ref; reloaded_ref] 90%Z true) as [H3 _].
  destruct (empty_library_all_missing exact_ratio
              [matrix_ref; id_only_ref] 90%Z true) as [_ H4].
  exact (conj H1 (conj (H3 H1) (conj H2 (H4 H2)))).
Defined.

Lemma identifier_match_witness :
  Forall has_title [matrix_lib]
  /\ id_stage id_keys id_only_ref (index_by_ids [matrix_lib])
     = Some matrix_lib
  /\ norm_title id_only_ref = None
  /\ find_match length_ratio [matrix_lib] 100 true id_only_ref
     = Some (Some matrix_lib).
Proof.
  assert (Forall has_title [matrix_lib]) as H1 by compute_done.
  assert (id_stage id_keys id_only_ref (index_by_ids [matrix_lib])
          = Some matrix_lib) as H2 by compute_done.
  assert (norm_title id_only_ref = None) as H3 by compute_done.
  exact (conj H1 (conj H2 (conj H3
           (proj1 (identifier_match length_ratio _ 100%Z _ _ H1 H2))))).
Defined.

Lemma untitled_reference_raises_witness :
  title_none_ref ∈ [matrix_ref; title_none_ref]
  /\ (forall t, title_none_ref !! "title" <> Some (VStr t))
  /\ id_stage id_keys title_none_ref (index_by_ids [matrix_lib]) = None
  /\ match_present exact_ratio [matrix_ref; title_none_ref] [matrix_lib]
       90 true = None.
Proof.
  assert (title_none_ref ∈ [matrix_ref; title_none_ref]) as H1
    by compute_done.
  assert (forall t, title_none_ref !! "title" <> Some (VStr t)) as H2
    by (intros t; compute_done).
  assert (id_stage id_keys title_none_ref (index_by_ids [matrix_lib]) = None)
    as H3 by compute_done.
  exact (conj H1 (conj H2 (conj H3
           (untitled_reference_raises exact_ratio _ _ 90%Z true _
              H1 H2 (or_intror H3))))).
Defined.

Lemma title_match_sound_witness :
  find_match length_ratio [matrix_lib] 90 false thematrix_ref
  = Some (Some matrix_lib)
  /\ exists st t,
       norm_title thematrix_ref = Some st /\ norm_title matrix_lib = Some t
       /\ (st = t \/ (inject_Z 90 <= length_ratio st t)%Q).
Proof.
  assert (find_match length_ratio [matrix_lib] 90 false thematrix_ref
          = Some (Some matrix_lib)) as H1 by compute_done.
  destruct (title_match_sound length_ratio _ _ _ _ _ H1 (or_introl eq_refl))
    as (_ & H2 & _).
  exact (conj H1 H2).
Defined.

Lemma threshold_antitone_witness :
  (80 <= 90)%Z
  /\ find_match length_ratio [matrix_lib] 90 true thematrix_ref
     = Some (Some matrix_lib)
  /\ find_match length_ratio [matrix_lib] 80 true thematrix_ref
     = Some (Some matrix_lib).
Proof.
  assert (80 <= 90)%Z as H1 by lia.
  assert (find_match length_ratio [matrix_lib] 90 true thematrix_ref
          = Some (Some matrix_lib)) as H2 by compute_done.
  exact (conj H1 (conj H2
           (threshold_antitone length_ratio _ _ _ _ _ _ H1 H2))).
Defined.

Lemma title_and_year_decide_witness :
  it_ref !! "title" = it_ref_with_ids !! "title"
  /\ get it_ref "year" = get it_ref_with_ids "year"
  /\ find_match exact_ratio [it_1990; it_2017] 90 false it_ref
     = find_match exact_ratio [it_1990; it_2017] 90 false it_ref_with_ids.
Proof.
  assert (it_ref !! "title" = it_ref_with_ids !! "title") as H1
    by compute_done.
  assert (get it_ref "year" = get it_ref_with_ids "year") as H2
    by compute_done.
  exact (conj H1 (conj H2
           (title_and_year_decide exact_ratio _ 90%Z _ _ H1 H2))).
Defined.

Lemma library_without_ids_witness :
  (forall it key, it ∈ [it_1990; it_2017] -> key ∈ id_keys ->
                  truthy (get it key) = false)
  /\ match_present exact_ratio [it_ref_with_ids] [it_1990; it_2017] 90 true
     = match_present exact_ratio [it_ref_with_ids] [it_1990; it_2017]
         90 false.
Proof.
  assert (forall it key, it ∈ [it_1990; it_2017] -> key ∈ id_keys ->
                         truthy (get it key) = false) as H.
  { intros it key. unfold id_keys.
    rewrite !elem_of_cons, !elem_of_nil.
    intros [->|[->|[]]] [->|[->|[->|[]]]]; reflexivity. }
  exact (conj H (library_without_ids exact_ratio _ _ 90%Z H)).
Defined.

Lemma reconcile_bundle_kinds_witness :
  reconcile_bundle exact_ratio [matrix_ref; mixed_ref; matrix_show_ref]
    [matrix_lib] [] 90 true
  = Some (([mark matrix_ref matrix_lib], []), ([], [matrix_show_ref]))
  /\ length [mark matrix_ref matrix_lib] + length (@nil pydict)
     + length (@nil pydict) + length [matrix_show_ref]
     = length (filter (fun x => get x "kind" = VStr (u "movie")
                                \/ get x "kind" = VStr (u "show"))
                 [matrix_ref; mixed_ref; matrix_show_ref]).
Proof.
  assert (reconcile_bundle exact_ratio [matrix_ref; mixed_ref; matrix_show_ref]
            [matrix_lib] [] 90 true
          = Some (([mark matrix_ref matrix_lib], []), ([], [matrix_show_ref])))
    as H by compute_done.
  destruct (reconcile_bundle_kinds exact_ratio _ _ _ _ _ _ _ _ _ H)
    as (_ & _ & H3).
  exact (conj H H3).
Defined.

Lemma fuzzy_stage_first_witness :
  norm_title thematrix_ref = Some (u "thematrix")
  /\ Forall has_title [matrix_show_lib; matrix_lib]
  /\ fuzzy_candidate length_ratio (u "thematrix") [u "the matrix"] 90
     = Some (u "the matrix")
  /\ fuzzy_stage length_ratio thematrix_ref [matrix_show_lib; matrix_lib]
       [u "the matrix"] 90
     = Some (head (filter (fun p => norm_title p = Some (u "the matrix")
                                    /\ year_ok thematrix_ref p = true)
                     [matrix_show_lib; matrix_lib])).
Proof.
  assert (norm_title thematrix_ref = Some (u "thematrix")) as H1
    by compute_done.
  assert (Forall has_title [matrix_show_lib; matrix_lib]) as H2
    by compute_done.
  assert (fuzzy_candidate length_ratio (u "thematrix") [u "the matrix"] 90
          = Some (u "the matrix")) as H3 by compute_done.
  exact (conj H1 (conj H2 (conj H3
           (fuzzy_stage_first length_ratio _ _ _ _ _ _ H1 H2 H3)))).
Defined.

Lemma exact_match_first_witness :
  build_title_year_index [it_1990; it_2017] = Some it_index
  /\ exact_stage it_ref it_index = Some (Some it_2017)
  /\ find_match length_ratio [it_1990; it_2017] 0 false it_ref
     = Some (Some it_2017).
Proof.
  assert (build_title_year_index [it_1990; it_2017] = Some it_index) as H1
    by compute_done.
  assert (exact_stage it_ref it_index = Some (Some it_2017)) as H2
    by compute_done.
  exact (conj H1 (conj H2
           (exact_match_first length_ratio _ _ 0%Z false _ _ H1
              (or_introl eq_refl) H2))).
Defined.

Lemma collect_missing_spec_witness :
  collect_missing exact_ratio
    [(u "IMDb Top 250 Movies", [matrix_ref; reloaded_ref]);
     (u "Trakt: user/list", [reloaded_ref; matrix_show_ref])]
    [matrix_lib] [] 90 true
  = Some ([reloaded_ref; reloaded_ref], [matrix_show_ref])
  /\ (reloaded_ref ∈ [reloaded_ref; reloaded_ref] <->
      exists b,
        b ∈ [(u "IMDb Top 250 Movies", [matrix_ref; reloaded_ref]);
             (u "Trakt: user/list", [reloaded_ref; matrix_show_ref])]
        /\ reloaded_ref ∈ b.2
        /\ get reloaded_ref "kind" = VStr (u "movie")
        /\ exists f, find_match exact_ratio [matrix_lib] 90 true reloaded_ref
                     = Some f /\ found_true f = false).
Proof.
  assert (collect_missing exact_ratio
            [(u "IMDb Top 250 Movies", [matrix_ref; reloaded_ref]);
             (u "Trakt: user/list", [reloaded_ref; matrix_show_ref])]
            [matrix_lib] [] 90 true
          = Some ([reloaded_ref; reloaded_ref], [matrix_show_ref])) as H
    by compute_done.
  exact (conj H (proj1 (collect_missing_spec exact_ratio _ _ _ _ _ _ _ H
                          reloaded_ref))).
Defined.

Lemma no_year_reference_matches_witness :
  norm_title thematrix_ref = Some (u "thematrix")
  /\ truthy (get thematrix_ref "year") = false
  /\ (exact_ratio (u "thematrix") (u "thematrix") == 100)%Q
  /\ exists r,
       find_match exact_ratio
         [library_item "TheMatrix" "1999" VNone VNone VNone 9 "movie"]
         90 true thematrix_ref = Some (Some r)
       /\ r ∈ [library_item "TheMatrix" "1999" VNone VNone VNone 9 "movie"].
Proof.
  assert (norm_title thematrix_ref = Some (u "thematrix")) as H1
    by compute_done.
  assert (truthy (get thematrix_ref "year") = false) as H2 by compute_done.
  assert (exact_ratio (u "thematrix") (u "thematrix") == 100)%Q as H3
    by reflexivity.
  assert (forall t, (0 <= exact_ratio (u "thematrix") t <= 100)%Q) as H4.
  { intros t. unfold exact_ratio.
    destruct (_ && _); split; vm_compute; discriminate. }
  assert (Forall has_title
            [library_item "TheMatrix" "1999" VNone VNone VNone 9 "movie"])
    as H5 by compute_done.
  exact (conj H1 (conj H2 (conj H3
           (no_year_reference_matches exact_ratio _ 90%Z true _ _ _
              H1 H2 H5 (list_elem_of_here _ _) ltac:(compute_done)
              H4 H3 ltac:(lia))))).
Defined.

Lemma missing_records_have_titles_witness :
  match_present exact_ratio [matrix_ref; id_only_ref; reloaded_ref]
    [matrix_lib] 90 true
  = Some ([mark matrix_ref matrix_lib; mark id_only_ref matrix_lib],
          [reloaded_ref])
  /\ radarr_look_term reloaded_ref = Some (u "The Matrix Reloaded (2003)")
  /\ Forall (fun x =>
               (exists t, x !! "title" = Some (VStr t))
               /\ is_Some (radarr_look_term x)
               /\ is_Some (sonarr_term x)) [reloaded_ref].
Proof.
  assert (match_present exact_ratio [matrix_ref; id_only_ref; reloaded_ref]
            [matrix_lib] 90 true
          = Some ([mark matrix_ref matrix_lib; mark id_only_ref matrix_lib],
                  [reloaded_ref])) as H by compute_done.
  assert (radarr_look_term reloaded_ref
          = Some (u "The Matrix Reloaded (2003)")) as H' by compute_done.
  exact (conj H (conj H'
           (missing_records_have_titles exact_ratio _ _ _ _ _ _ H))).
Defined.
